(** * StockLogo: the recommendation engine of [run_system.py]

    A shallow embedding of the class [RecommendationSystem] and of the
    library operations it calls, followed by the properties of the
    catalog build, of the colour signature and of the distance ranking.

    Conventions of the embedding:
    - Python [int] is [Z]; a Python list is a [list].
    - A Python [float] is an exact rational in canonical form ([Qc]):
      numerically equal values are equal, rounding is not modelled.
    - A raised exception is the [Raise] case of [result]; code that has a
      side effect and may raise threads its state explicitly and returns the
      state together with the [result].
    - A pandas DataFrame is the list of its rows, in row order; a pandas
      Series with an explicit index is an association list, in order, with
      its duplicates. *)

From Stdlib Require Import String Ascii.
From Stdlib Require Import ZArith List Bool Arith Lia.
From Stdlib Require Import QArith Qcanon Qcabs.
From Stdlib Require Import Permutation Sorted.
Import ListNotations.

Close Scope Qc_scope.
Open Scope Z_scope.

(** ** Exceptions *)

Inductive exn : Type :=
| AssertionError
| KeyError
| ZeroDivisionError
| ValueError
| FileNotFoundError
| UnidentifiedImageError
| URLError
| OSError
| AttributeError
| TypeError
| IndexError.

Inductive result (A : Type) : Type :=
| Ok (a : A)
| Raise (e : exn).

Arguments Ok {A} a.
Arguments Raise {A} e.

Definition bind {A B} (r : result A) (k : A -> result B) : result B :=
  match r with
  | Ok a => k a
  | Raise e => Raise e
  end.

Notation "x <- r ;; k" := (bind r (fun x => k))
  (at level 61, r at next level, right associativity).

(** [[f(x) for x in l]] where [f] may raise: left to right, the first
    exception ends the loop. *)
Fixpoint mapM {A B} (f : A -> result B) (l : list A) : result (list B) :=
  match l with
  | [] => Ok []
  | x :: t => y <- f x ;; ys <- mapM f t ;; Ok (y :: ys)
  end.

(** ** Python built-ins used by the signature *)

(** [l[lo:hi]] for literal bounds [0 <= lo <= hi]. *)
Definition slice {A} (lo hi : nat) (l : list A) : list A :=
  firstn (hi - lo) (skipn lo l).

Fixpoint enumerate_from {A} (i : Z) (l : list A) : list (Z * A) :=
  match l with
  | [] => []
  | x :: t => (i, x) :: enumerate_from (i + 1) t
  end.

Definition enumerate {A} (l : list A) : list (Z * A) := enumerate_from 0 l.

(** [sum(l)]: starts from 0 and adds from the left. *)
Definition sum (l : list Z) : Z := fold_left Z.add l 0.

(** [a / b] on two [int]s: true division, [ZeroDivisionError] when [b] is 0. *)
Definition truediv (a b : Z) : result Qc :=
  if b =? 0 then Raise ZeroDivisionError
  else Ok (Q2Qc (inject_Z a / inject_Z b)).

(** ** Colour signature *)

Module Signature.

(** [sum(i * w for i, w in enumerate(c))] *)
Definition weighted_sum (c : list Z) : Z :=
  sum (map (fun iw => fst iw * snd iw) (enumerate c)).

Definition average_color_from_histogram (input_histogram : list Z)
  : result (list Qc) :=
  let r := slice 0 256 input_histogram in
  let g := slice 256 (256 * 2) input_histogram in
  let b := slice (256 * 2) (256 * 3) input_histogram in
  x0 <- truediv (weighted_sum r) (sum r) ;;
  x1 <- truediv (weighted_sum g) (sum g) ;;
  x2 <- truediv (weighted_sum b) (sum b) ;;
  Ok [x0; x1; x2].

(** The signature as the specification words it: channel [c] owns the
    buckets [256*c .. 256*c+255] of the histogram; its mean is the sum of
    bucket index times bucket count over the sum of the bucket counts. *)
Definition bucket_count (h : list Z) (c i : nat) : Z := nth (256 * c + i) h 0.

Definition big_sum (f : nat -> Z) (n : nat) : Z :=
  fold_right Z.add 0 (map f (seq 0 n)).

Definition channel_total (h : list Z) (c : nat) : Z :=
  big_sum (fun i => bucket_count h c i) 256.

Definition channel_weighted (h : list Z) (c : nat) : Z :=
  big_sum (fun i => Z.of_nat i * bucket_count h c i) 256.

Definition spec_channel_mean (h : list Z) (c : nat) : Qc :=
  Q2Qc (inject_Z (channel_weighted h c) / inject_Z (channel_total h c)).

End Signature.

(** ** numpy and scipy *)

(** [x <= y] on two floats. *)
Definition Qcleb (x y : Qc) : bool := Qle_bool x y.

Definition Qc_of_nat (n : nat) : Qc := Q2Qc (inject_Z (Z.of_nat n)).

Module Numpy.

Section SortBy.
Context {A : Type} (key : A -> Qc).

(** A stable sort on a key: [a] goes in front of the first element whose
    key is not smaller, and the elements are inserted last to first, so
    equal keys keep the order of the input. *)
Fixpoint insert_by (a : A) (l : list A) : list A :=
  match l with
  | [] => [a]
  | b :: t =>
      if Qcleb (key a) (key b) then a :: b :: t else b :: insert_by a t
  end.

Definition sort_by (l : list A) : list A := fold_right insert_by [] l.

(** The order the sort establishes. *)
Definition key_le (a b : A) : Prop := (key a <= key b)%Qc.
End SortBy.

(** [a.sort(kind='mergesort')] *)
Definition sort (a : list Qc) : list Qc := sort_by (fun x => x) a.

(** [np.argsort(a)]: the positions of [a] in ascending order of value.
    numpy's default kind promises no order among equal values; here they
    stay in the order of [a]. *)
Definition argsort (a : list Qc) : list nat :=
  map fst (sort_by snd (combine (seq 0 (length a)) a)).

(** [a[idx]] for an array of positions [idx]. *)
Definition take (a : list Qc) (idx : list nat) : list Qc :=
  map (fun i => nth i a 0%Qc) idx.

(** [np.diff(a)] *)
Fixpoint diff (a : list Qc) : list Qc :=
  match a with
  | x :: (y :: _) as t => (y - x)%Qc :: diff t
  | _ => []
  end.

(** [a.searchsorted(v, 'right')] for one value [v] and a sorted [a]: the
    number of leading elements that are [<= v]. *)
Fixpoint searchsorted_right (a : list Qc) (v : Qc) : nat :=
  match a with
  | [] => 0%nat
  | x :: t => if Qcleb x v then S (searchsorted_right t v) else 0%nat
  end.

(** [np.sum(a)] *)
Definition fsum (a : list Qc) : Qc := fold_left Qcplus a 0%Qc.

(** [np.multiply(np.abs(x - y), d)], element by element. *)
Fixpoint abs_diff_times (x y d : list Qc) : list Qc :=
  match x, y, d with
  | a :: x', b :: y', e :: d' => (Qcabs (a - b) * e)%Qc :: abs_diff_times x' y' d'
  | _, _, _ => []
  end.

End Numpy.

Module Scipy.
Import Numpy.

(** Modelled from the spec: [scipy.stats.wasserstein_distance] is imported
    by [run_system.py], its code is not part of the repository.  The
    specification names it the 1-D Earth-Mover's / Wasserstein distance
    between the two signatures, each taken as a distribution over its
    values.  It is written here the way the library computes it, for p = 1
    and no weights: the integral of the absolute difference of the two
    empirical distribution functions, summed over the gaps between the
    sorted values of both samples.  An empty sample is a [ValueError]. *)
Definition wasserstein_distance (u_values v_values : list Qc) : result Qc :=
  match u_values, v_values with
  | [], _ | _, [] => Raise ValueError
  | _, _ =>
      let u_sorter := argsort u_values in
      let v_sorter := argsort v_values in
      let all_values := sort (u_values ++ v_values) in
      let deltas := diff all_values in
      let u_cdf_indices :=
        map (searchsorted_right (take u_values u_sorter)) (removelast all_values) in
      let v_cdf_indices :=
        map (searchsorted_right (take v_values v_sorter)) (removelast all_values) in
      let u_cdf :=
        map (fun i => (Qc_of_nat i / Qc_of_nat (length u_values))%Qc) u_cdf_indices in
      let v_cdf :=
        map (fun i => (Qc_of_nat i / Qc_of_nat (length v_values))%Qc) v_cdf_indices in
      Ok (fsum (abs_diff_times u_cdf v_cdf deltas))
  end.

End Scipy.

(** ** The world outside the process: files and the network *)

(** The one thing the program asks of a decoded image is its histogram,
    the list [Image.histogram()] returns. *)
Record Image : Type := { histogram : list Z }.

(** The object [Image.open] returns.  PIL reads the header when it opens a
    file and the pixel data when they are first needed: the object either
    loads as an image, or is one of a file whose header is that of an
    image and whose data do not decode. *)
Inductive Picture : Type :=
| Loaded (img : Image)
| Unloadable.

(** A field of a JSON record: the key is not there, its value is [null],
    or it is a string. *)
Inductive Field : Type :=
| Absent
| Null
| Str (s : string).

(** One record of the feed, cut down to the three fields the program keeps. *)
Record RawRecord : Type := {
  raw_symbol : Field;
  raw_shortName : Field;
  raw_logo_url : Field
}.

(** What a file or a response body holds: bytes that decode as an image,
    bytes that start as an image and do not decode (a truncated file), a
    JSON document (with its ["stock_data"] mapping, in order, when it has
    one), or anything else. *)
Inductive Blob : Type :=
| ImageBlob (img : Image)
| TruncatedBlob
| JsonBlob (stock_data : option (list (string * RawRecord)))
| OtherBlob.

Record World : Type := {
  cwd : string;                      (* os.getcwd() *)
  files : string -> option Blob;     (* the file system *)
  web : string -> option Blob;       (* what a GET of a url answers *)
  writable : string -> bool;         (* paths a file can be written to *)
  log : list string                  (* lines written by logging.info *)
}.

Definition set_files (w : World) (f : string -> option Blob) : World :=
  {| cwd := cwd w; files := f; web := web w; writable := writable w;
     log := log w |}.

Definition set_log (w : World) (l : list string) : World :=
  {| cwd := cwd w; files := files w; web := web w; writable := writable w;
     log := l |}.

(** Code with an effect on a state [S] that may raise: the state comes back
    in both cases. *)
Definition Eff (S A : Type) : Type := S -> result A * S.

Definition ret {S A} (a : A) : Eff S A := fun s => (Ok a, s).

Definition raise {S A} (e : exn) : Eff S A := fun s => (Raise e, s).

Definition bindE {S A B} (m : Eff S A) (k : A -> Eff S B) : Eff S B :=
  fun s =>
    match m s with
    | (Ok a, s') => k a s'
    | (Raise e, s') => (Raise e, s')
    end.

Definition lift {S A} (r : result A) : Eff S A := fun s => (r, s).

Notation "x <-- m ;; k" := (bindE m (fun x => k))
  (at level 61, m at next level, right associativity).

(** [try: body  except: handler] with a bare [except]. *)
Definition try_except {S A} (body : Eff S A) (handler : Eff S A) : Eff S A :=
  fun s =>
    match body s with
    | (Ok a, s') => (Ok a, s')
    | (Raise _, s') => handler s'
    end.

(** [df.apply(f, axis=1)]: [f] on every row, first to last. *)
Fixpoint mapE {S A B} (f : A -> Eff S B) (l : list A) : Eff S (list B) :=
  match l with
  | [] => ret []
  | x :: t => y <-- f x ;; ys <-- mapE f t ;; ret (y :: ys)
  end.

Definition IO (A : Type) : Type := Eff World A.

Module Os.

Definition starts_with_slash (s : string) : bool :=
  match s with
  | String "/" _ => true
  | _ => false
  end.

Fixpoint ends_with_slash (s : string) : bool :=
  match s with
  | EmptyString => false
  | String c EmptyString => Ascii.eqb c "/"
  | String _ t => ends_with_slash t
  end.

(** [os.path.join(a, b)] on a POSIX system. *)
Definition path_join (a b : string) : string :=
  if starts_with_slash b then b
  else if (String.eqb a "" || ends_with_slash a)%bool then String.append a b
  else String.append a (String.append "/" b).

(** The text after the last [c] of [s], when [c] occurs in [s]. *)
Fixpoint after_last (c : ascii) (s : string) : option string :=
  match s with
  | EmptyString => None
  | String a t =>
      match after_last c t with
      | Some rest => Some rest
      | None => if Ascii.eqb a c then Some t else None
      end
  end.

Definition basename (path : string) : string :=
  match after_last "/" path with
  | Some name => name
  | None => path
  end.

Fixpoint skip_dots (s : string) : string :=
  match s with
  | String "." t => skip_dots t
  | _ => s
  end.

(** [os.path.splitext(path)[1]]: from the last dot of the file name on;
    the dots a file name starts with do not count. *)
Definition extension (path : string) : string :=
  match after_last "." (skip_dots (basename path)) with
  | Some rest => String "." rest
  | None => EmptyString
  end.

Definition isfile (path : string) : IO bool :=
  fun w => (Ok (match files w path with Some _ => true | None => false end), w).

End Os.

Module Pil.

(** What PIL makes of the bytes of a file: nothing when the header is not
    that of an image. *)
Definition identify (b : Blob) : option Picture :=
  match b with
  | ImageBlob img => Some (Loaded img)
  | TruncatedBlob => Some Unloadable
  | _ => None
  end.

(** [Image.open(path)]: the header is read, the pixel data are not. *)
Definition open (path : string) : IO Picture :=
  fun w =>
    match files w path with
    | None => (Raise FileNotFoundError, w)
    | Some b =>
        match identify b with
        | Some picture => (Ok picture, w)
        | None => (Raise UnidentifiedImageError, w)
        end
    end.

(** [Image.open(fp)] on a response body. *)
Definition open_stream (b : Blob) : IO Picture :=
  match identify b with
  | Some picture => ret picture
  | None => raise UnidentifiedImageError
  end.

(** [image.load()]: the pixel data are decoded. *)
Definition load (picture : Picture) : result Image :=
  match picture with
  | Loaded img => Ok img
  | Unloadable => Raise OSError
  end.

(** [image.histogram()] *)
Definition histogram_of (picture : Picture) : result (list Z) :=
  img <- load picture ;; Ok (histogram img).

Definition lower_ascii (c : ascii) : ascii :=
  let n := nat_of_ascii c in
  if ((65 <=? n) && (n <=? 90))%nat then ascii_of_nat (n + 32) else c.

Fixpoint lower (s : string) : string :=
  match s with
  | EmptyString => EmptyString
  | String c t => String (lower_ascii c) (lower t)
  end.

(** Extensions for which PIL has a format to write; the program only
    meets [.png]. *)
Definition EXTENSION : list string :=
  [".png"; ".jpg"; ".jpeg"; ".gif"; ".bmp"; ".tif"; ".tiff"; ".webp";
   ".ico"; ".ppm"]%string.

(** The extension of [path] names a format. *)
Definition has_format (path : string) : bool :=
  existsb (String.eqb (lower (Os.extension path))) EXTENSION.

(** [image.save(path)]: the image is loaded, the format is looked up under
    the extension of the path ([ValueError] when there is none), and the
    file is written. *)
Definition save (picture : Picture) (path : string) : IO unit :=
  fun w =>
    match load picture with
    | Raise e => (Raise e, w)
    | Ok img =>
        if has_format path then
          if writable w path
          then (Ok tt,
                set_files w
                  (fun p => if String.eqb p path then Some (ImageBlob img)
                            else files w p))
          else (Raise OSError, w)
        else (Raise ValueError, w)
    end.

End Pil.

Module Urllib.

(** [urllib.request.urlopen(url)] *)
Definition urlopen (url : string) : IO Blob :=
  fun w =>
    match web w url with
    | Some b => (Ok b, w)
    | None => (Raise URLError, w)
    end.

End Urllib.

Module Logging.

Definition info (msg : string) : IO unit :=
  fun w => (Ok tt, set_log w (log w ++ [msg])).

End Logging.

(** [s.replace(old, new)] for a non-empty [old]: every occurrence, left to
    right, without overlap.  [skip] counts the characters of a replaced
    occurrence that are still to be passed over. *)
Fixpoint replace_from (old new : string) (skip : nat) (s : string) : string :=
  match s with
  | EmptyString => EmptyString
  | String c t =>
      match skip with
      | S k => replace_from old new k t
      | O =>
          if String.prefix old s
          then String.append new (replace_from old new (String.length old - 1) t)
          else String c (replace_from old new 0 t)
      end
  end.

Definition replace (old new s : string) : string := replace_from old new 0 s.

(** ** pandas *)

Module Pandas.

(** [Series.drop_duplicates()]: an entry is dropped when its VALUE has
    already been seen; the labels of the index play no part. *)
Fixpoint drop_duplicates_seen {K} (seen : list nat) (s : list (K * nat))
  : list (K * nat) :=
  match s with
  | [] => []
  | (k, v) :: t =>
      if existsb (Nat.eqb v) seen then drop_duplicates_seen seen t
      else (k, v) :: drop_duplicates_seen (v :: seen) t
  end.

Definition drop_duplicates {K} (s : list (K * nat)) : list (K * nat) :=
  drop_duplicates_seen [] s.

(** [df[column] = df.apply(f, axis=1)].  On a frame with rows, [f] is
    called on every row, first to last, and its results are the new
    column.  On a frame without rows [apply] gives back a frame rather
    than a column, and the assignment raises [ValueError]. *)
Definition assign_apply {S A B} (f : A -> Eff S B) (df : list A)
  : Eff S (list B) :=
  match df with
  | [] => raise ValueError
  | _ :: _ => mapE f df
  end.

(** The same for an [f] without effect. *)
Definition assign_apply_pure {A B} (f : A -> result B) (df : list A)
  : result (list B) :=
  match df with
  | [] => Raise ValueError
  | _ :: _ => mapM f df
  end.

(** [df.iloc[positions]] *)
Definition iloc {R} (df : list R) (positions : list nat) : result (list R) :=
  mapM (fun i => match nth_error df i with
                 | Some r => Ok r
                 | None => Raise IndexError
                 end) positions.

End Pandas.

(** ** The class [RecommendationSystem] *)

Module RecommendationSystem.
Import Signature Numpy Scipy Pandas.

(** A row of [self.clean_data].  [index] is the key the record has in the
    feed (the column that [reset_index] adds); the position of the row in
    the list is its integer index.  A column that has not been added yet, or
    a missing value, is [None]. *)
Record Row : Type := {
  index : string;
  symbol : string;
  shortName : string;
  logo_url : string;
  image : option Picture;
  average_color : option (list Qc);
  rgb_distance : option Qc
}.

Definition set_image (r : Row) (i : option Picture) : Row :=
  {| index := index r; symbol := symbol r; shortName := shortName r;
     logo_url := logo_url r; image := i;
     average_color := average_color r; rgb_distance := rgb_distance r |}.

Definition set_average_color (r : Row) (c : option (list Qc)) : Row :=
  {| index := index r; symbol := symbol r; shortName := shortName r;
     logo_url := logo_url r; image := image r;
     average_color := c; rgb_distance := rgb_distance r |}.

Definition set_rgb_distance (r : Row) (d : option Qc) : Row :=
  {| index := index r; symbol := symbol r; shortName := shortName r;
     logo_url := logo_url r; image := image r;
     average_color := average_color r; rgb_distance := d |}.

(** The attributes of [self] that the methods assign
    ([self.useful_fields] is a constant list). *)
Record System : Type := {
  clean_data : list Row;
  indices : list (string * nat);
  current_image : option Picture;
  current_histogram : option (list Z);
  current_rgb : option (list Qc)
}.

Definition set_clean_data (s : System) (d : list Row) : System :=
  {| clean_data := d; indices := indices s; current_image := current_image s;
     current_histogram := current_histogram s; current_rgb := current_rgb s |}.

Definition set_current_image (s : System) (i : option Picture) : System :=
  {| clean_data := clean_data s; indices := indices s; current_image := i;
     current_histogram := current_histogram s; current_rgb := current_rgb s |}.

Definition set_current_histogram (s : System) (h : option (list Z)) : System :=
  {| clean_data := clean_data s; indices := indices s;
     current_image := current_image s;
     current_histogram := h; current_rgb := current_rgb s |}.

Definition set_current_rgb (s : System) (c : option (list Qc)) : System :=
  {| clean_data := clean_data s; indices := indices s;
     current_image := current_image s;
     current_histogram := current_histogram s; current_rgb := c |}.

Definition INPUT_DATA (w : World) : string :=
  Os.path_join (cwd w) "spy_data.json".

Definition LOGO_CACHE (w : World) : string :=
  Os.path_join (cwd w) "static/logo_cache".

Definition load_pandas_df_from_json (json_file_path : string)
  : IO (list (string * RawRecord)) :=
  fun w =>
    match files w json_file_path with
    | None => (Raise FileNotFoundError, w)
    | Some (JsonBlob (Some stock_data)) => (Ok stock_data, w)
    | Some (JsonBlob None) => (Raise AssertionError, w)
    | Some _ => (Raise ValueError, w)
    end.

Definition is_absent (f : Field) : bool :=
  match f with
  | Absent => true
  | _ => false
  end.

(** The transposed frame has a column for every key that some record has. *)
Definition has_column (col : RawRecord -> Field)
  (df : list (string * RawRecord)) : bool :=
  existsb (fun kr => negb (is_absent (col (snd kr)))) df.

(** [all_data[self.useful_fields]]: a [KeyError] when a column is not there. *)
Definition select_useful_fields (df : list (string * RawRecord))
  : result (list (string * RawRecord)) :=
  if (has_column raw_symbol df && has_column raw_shortName df
      && has_column raw_logo_url df)%bool
  then Ok df else Raise KeyError.

(** The first [dropna()]: a row stays when none of its three values is
    missing. *)
Definition dropna_fields (df : list (string * RawRecord)) : list Row :=
  flat_map
    (fun kr =>
       match raw_symbol (snd kr), raw_shortName (snd kr), raw_logo_url (snd kr) with
       | Str s, Str n, Str u =>
           [{| index := fst kr; symbol := s; shortName := n; logo_url := u;
               image := None; average_color := None;
               rgb_distance := None |}]%list
       | _, _, _ => []%list
       end) df.

Definition cache_location (w : World) (row : Row) : string :=
  Os.path_join (LOGO_CACHE w) (String.append (symbol row) ".png").

Definition nonempty (s : string) : bool := negb (String.eqb s "").

(** The address the logo is fetched from. *)
Definition fetch_url (row : Row) : string :=
  replace "https" "http" (logo_url row).

Definition download_logos (row : Row) : IO (option Picture) :=
  fun w =>
    if nonempty (logo_url row) then
      try_except
        (cached <-- Os.isfile (cache_location w row) ;;
         if (cached : bool) then
           (cached_image <-- Pil.open (cache_location w row) ;;
            ret (Some cached_image))
         else
           (response <-- Urllib.urlopen (fetch_url row) ;;
            logo_image <-- Pil.open_stream response ;;
            _ <-- Pil.save logo_image (cache_location w row) ;;
            ret (Some logo_image)))
        (_ <-- Logging.info (String.append "Got an error " (shortName row)) ;;
         ret None)
        w
    else
      (_ <-- Logging.info (String.append "Got an error " (shortName row)) ;;
       ret None) w.

Definition has_image (r : Row) : bool :=
  match image r with
  | Some _ => true
  | None => false
  end.

(** The second [dropna()]: only the image column can hold a missing value. *)
Definition dropna_image (df : list Row) : list Row := filter has_image df.

Definition set_image_column (df : list Row) (col : list (option Picture))
  : list Row :=
  map (fun ri => set_image (fst ri) (snd ri)) (combine df col).

(** Lines 43 to 50 of [__init__]: the frame up to [reset_index()]. *)
Definition load_clean_data : IO (list Row) :=
  fun w =>
    (all_data <-- load_pandas_df_from_json (INPUT_DATA w) ;;
     useful <-- lift (select_useful_fields all_data) ;;
     let clean_data := dropna_fields useful in
     images <-- assign_apply download_logos clean_data ;;
     let clean_data := set_image_column clean_data images in
     let clean_data := dropna_image clean_data in
     ret clean_data) w.

Definition average_image_color (row : Row) : result (list Qc) :=
  match image row with
  | Some picture =>
      image_histogram <- Pil.histogram_of picture ;;
      average_color_from_histogram image_histogram
  | None => Raise AttributeError
  end.

Definition set_average_color_column (df : list Row) (col : list (list Qc))
  : list Row :=
  map (fun rc => set_average_color (fst rc) (Some (snd rc))) (combine df col).

(** [__init__], the cache directory being there already. *)
Definition __init__ : IO System :=
  clean_data <-- load_clean_data ;;
  let indices :=
    drop_duplicates
      (combine (map symbol clean_data) (seq 0 (length clean_data))) in
  colors <-- lift (assign_apply_pure average_image_color clean_data) ;;
  let clean_data := set_average_color_column clean_data colors in
  ret {| clean_data := clean_data; indices := indices;
         current_image := None; current_histogram := None;
         current_rgb := None |}.

Definition get_rgb_distance (self : System) (row : Row) : result Qc :=
  match average_color row, current_rgb self with
  | Some c, Some q => wasserstein_distance c q
  | None, _ => Raise KeyError
  | _, None => Raise TypeError
  end.

Definition set_rgb_distance_column (df : list Row) (col : list Qc) : list Row :=
  map (fun rd => set_rgb_distance (fst rd) (Some (snd rd))) (combine df col).

(** [df["rgb_distance"]] *)
Definition rgb_distance_column (df : list Row) : result (list Qc) :=
  mapM (fun r => match rgb_distance r with
                 | Some d => Ok d
                 | None => Raise KeyError
                 end) df.

Definition get {S} : Eff S S := fun s => (Ok s, s).

Definition modify {S} (f : S -> S) : Eff S unit := fun s => (Ok tt, f s).

(** An operation that only reads the world. *)
Definition reading {S A} (w : World) (m : IO A) : Eff S A :=
  fun s => (fst (m w), s).

Definition get_recommendation (w : World) (input_filepath : string)
  : Eff System (list (string * string) * list Qc) :=
  opened <-- reading w (Pil.open input_filepath) ;;
  _ <-- modify (fun self => set_current_image self (Some opened)) ;;
  current_histogram <-- lift (Pil.histogram_of opened) ;;
  _ <-- modify (fun self =>
                  set_current_histogram self (Some current_histogram)) ;;
  rgb <-- lift (average_color_from_histogram current_histogram) ;;
  _ <-- modify (fun self => set_current_rgb self (Some rgb)) ;;
  self <-- get ;;
  distances <-- lift (assign_apply_pure (get_rgb_distance self)
                        (clean_data self)) ;;
  _ <-- modify (fun self =>
                  set_clean_data self
                    (set_rgb_distance_column (clean_data self) distances)) ;;
  self <-- get ;;
  column <-- lift (rgb_distance_column (clean_data self)) ;;
  closest_values <-- lift (iloc (clean_data self) (slice 1 6 (argsort column))) ;;
  scores <-- lift (rgb_distance_column closest_values) ;;
  ret (map (fun r => (symbol r, shortName r)) closest_values, scores).

(** A catalog entry as the build leaves it: a logo and a signature of
    three components. *)
Definition has_signature (r : Row) : bool :=
  match image r, average_color r with
  | Some _, Some [_; _; _] => true
  | _, _ => false
  end.

Definition catalog_ok (self : System) : bool :=
  forallb has_signature (clean_data self).

(** A histogram with a channel whose bucket counts add up to zero. *)
Definition degenerate (h : list Z) : bool :=
  ((channel_total h 0 =? 0) || (channel_total h 1 =? 0)
   || (channel_total h 2 =? 0))%bool.

Definition degenerate_row (r : Row) : bool :=
  match image r with
  | Some (Loaded img) => degenerate (histogram img)
  | _ => false
  end.

(** The machine after the line that [download_logos] logs for [row]. *)
Definition logged (w : World) (row : Row) : World :=
  set_log w (log w ++ [String.append "Got an error " (shortName row)]).

(** The column of the distances to the query signature [q]. *)
Definition row_distances (q : list Qc) (df : list Row) : result (list Qc) :=
  assign_apply_pure
    (fun row => match average_color row with
                | Some c => wasserstein_distance c q
                | None => Raise KeyError
                end) df.

(** The distance of a row to the query signature [q]. *)
Definition distance_to (q : list Qc) (row : Row) : result Qc :=
  match average_color row with
  | Some c => wasserstein_distance c q
  | None => Raise KeyError
  end.

(** [self] once the three [current_*] attributes have been assigned. *)
Definition remember_query (self : System) (img : Image) (q : list Qc) : System :=
  set_current_rgb
    (set_current_histogram (set_current_image self (Some (Loaded img)))
       (Some (histogram img)))
    (Some q).

(** The two columns a recommendation returns. *)
Definition names (r : Row) : string * string := (symbol r, shortName r).

(** What a catalog entry is made of: every column but [rgb_distance]. *)
Definition entry_fields (r : Row)
  : string * string * string * string * option Picture * option (list Qc) :=
  (index r, symbol r, shortName r, logo_url r, image r, average_color r).

(** Row [r] stems from a record of the feed that has its three fields. *)
Definition complete_in (feed : list (string * RawRecord)) (r : Row) : Prop :=
  exists raw,
    In (index r, raw) feed
    /\ raw_symbol raw = Str (symbol r)
    /\ raw_shortName raw = Str (shortName r)
    /\ raw_logo_url raw = Str (logo_url r).

End RecommendationSystem.

(** ** The web layer *)

Module WebApp.
Import RecommendationSystem.

Definition ALLOWED_EXTENSIONS : list string := ["png"; "jpg"; "jpeg"]%string.

(** [str.lower()] on the ASCII letters. *)
Definition lower_char (c : ascii) : ascii :=
  let n := nat_of_ascii c in
  if ((65 <=? n) && (n <=? 90))%nat then ascii_of_nat (n + 32) else c.

Fixpoint lower (s : string) : string :=
  match s with
  | EmptyString => EmptyString
  | String c t => String (lower_char c) (lower t)
  end.

(** ["." in s] *)
Fixpoint contains_dot (s : string) : bool :=
  match s with
  | EmptyString => false
  | String c t => (Ascii.eqb c "." || contains_dot t)%bool
  end.

(** [s.rsplit(".", 1)]: [[s]] when [s] has no dot, else the text before
    the last dot and the text after it. *)
Fixpoint rsplit_dot (s : string) : list string :=
  match s with
  | EmptyString => [EmptyString]
  | String c t =>
      match rsplit_dot t with
      | [before; after] => [String c before; after]
      | _ => if Ascii.eqb c "." then [EmptyString; t] else [String c t]
      end
  end.

Definition allowed_file (filename : string) : result bool :=
  if contains_dot filename then
    match nth_error (rsplit_dot filename) 1 with
    | Some extension =>
        Ok (existsb (String.eqb (lower extension)) ALLOWED_EXTENSIONS)
    | None => Raise IndexError
    end
  else Ok false.

(** An uploaded file: the name the browser sent and the bytes. *)
Record FileStorage : Type := {
  filename : string;
  stream : Blob
}.

Inductive Method : Type :=
| GET
| HEAD
| POST.

(** The request, as far as [upload] reads it: the method and the part
    named ["logo"] of [request.files], when there is one. *)
Record Request : Type := {
  method : Method;
  logo : option FileStorage
}.

Record Recommendation : Type := {
  rec_symbol : string;
  rec_shortName : string;
  score : Qc
}.

(** The keyword arguments of [render_template]; an argument that is not
    passed is [None] or the empty list. *)
Record Context : Type := {
  error_msg : option string;
  shown_filename : option string;
  recs : list Recommendation;
  cols : list string;
  display_cols : list string
}.

(** What a view function returns; [NoResponse] is Python's [None]. *)
Inductive Response : Type :=
| Rendered (template : string) (context : Context)
| Redirect (endpoint : string)
| NoResponse.

(** The process: the machine, the global [StockRec] and the messages
    flashed so far. *)
Record App : Type := {
  world : World;
  StockRec : System;
  flashes : list string
}.

Definition set_world (app : App) (w : World) : App :=
  {| world := w; StockRec := StockRec app; flashes := flashes app |}.

Definition set_StockRec (app : App) (s : System) : App :=
  {| world := world app; StockRec := s; flashes := flashes app |}.

Definition in_world {A} (m : IO A) : Eff App A :=
  fun app => let (r, w') := m (world app) in (r, set_world app w').

Definition in_system {A} (m : World -> Eff System A) : Eff App A :=
  fun app =>
    let (r, s') := m (world app) (StockRec app) in (r, set_StockRec app s').

Definition flash (message : string) : Eff App unit :=
  fun app =>
    (Ok tt,
     {| world := world app; StockRec := StockRec app;
        flashes := flashes app ++ [message] |}).

(** [file.save(path)]: the bytes replace what the path held. *)
Definition save_upload (b : Blob) (path : string) : IO unit :=
  fun w =>
    if writable w path
    then (Ok tt,
          set_files w (fun p => if String.eqb p path then Some b
                                else files w p))
    else (Raise OSError, w).

(** [app.config["UPLOAD_FOLDER"]] *)
Definition UPLOAD_FOLDER (w : World) : string := LOGO_CACHE w.

Definition error_page (message : string) : Response :=
  Rendered "index.html"
    {| error_msg := Some message; shown_filename := None; recs := [];
       cols := []; display_cols := [] |}.

Definition result_page (name : string) (records : list Recommendation)
  : Response :=
  Rendered "index.html"
    {| error_msg := None; shown_filename := Some name; recs := records;
       cols := ["symbol"; "shortName"; "score"]%string;
       display_cols := ["Ticker"; "Name"; "Score"]%string |}.

Section Routes.

(** [werkzeug.utils.secure_filename] and [round(score, 2)] are taken as
    they come. *)
Variable secure_filename : string -> string.
Variable round2 : Qc -> Qc.

(** Where [upload] saves a file. *)
Definition upload_path (app : App) (file : FileStorage) : string :=
  Os.path_join (UPLOAD_FOLDER (world app)) (secure_filename (filename file)).

(** The machine once the bytes [b] are saved at [path]. *)
Definition saved_at (w : World) (path : string) (b : Blob) : World :=
  set_files w (fun p => if String.eqb p path then Some b else files w p).

(** [rec["score"] = round(score, 2)] over [zip(recommendations, scores)]. *)
Definition with_scores (out : list (string * string) * list Qc)
  : list Recommendation :=
  map (fun rs => {| rec_symbol := fst (fst rs); rec_shortName := snd (fst rs);
                    score := round2 (snd rs) |})
    (combine (fst out) (snd out)).

Definition upload (request : Request) : Eff App Response :=
  match method request with
  | POST =>
      match logo request with
      | None => ret (error_page "No file uploaded")
      | Some file =>
          if String.eqb (filename file) ""
          then ret (error_page "No file selected")
          else
            allowed <-- lift (if nonempty (filename file)
                              then allowed_file (filename file)
                              else Ok false) ;;
            if (allowed : bool) then
              fun app =>
                (let name := secure_filename (filename file) in
                 let full_filepath :=
                   Os.path_join (UPLOAD_FOLDER (world app)) name in
                 _ <-- in_world (save_upload (stream file) full_filepath) ;;
                 _ <-- flash "Logo uploaded:" ;;
                 out <-- in_system
                           (fun w => get_recommendation w full_filepath) ;;
                 ret (result_page name (with_scores out))) app
            else ret (Redirect "index")
      end
  | _ => ret NoResponse
  end.

End Routes.

End WebApp.

(** ** Relations used to state what the build does to the machine *)

(** [w'] has every file of [w], with the same content, and the same
    working directory, network and write permissions. *)
Definition extends (w w' : World) : Prop :=
  cwd w' = cwd w
  /\ web w' = web w
  /\ writable w' = writable w
  /\ forall p b, files w p = Some b -> files w' p = Some b.

(** [l1] is [l2] with some elements left out. *)
Inductive Subseq {A : Type} : list A -> list A -> Prop :=
| Subseq_nil : Subseq [] []
| Subseq_skip (x : A) (l1 l2 : list A) : Subseq l1 l2 -> Subseq l1 (x :: l2)
| Subseq_keep (x : A) (l1 l2 : list A) :
    Subseq l1 l2 -> Subseq (x :: l1) (x :: l2).

(** [old] occurs in [s]. *)
Fixpoint occurs (old s : string) : bool :=
  match s with
  | EmptyString => String.prefix old EmptyString
  | String _ t => (String.prefix old s || occurs old t)%bool
  end.

(** ** Concrete feeds, logos and queries *)

Module Examples.
Import Signature RecommendationSystem.

Definition spike (i : nat) (n : Z) : list Z :=
  repeat 0 i ++ [n] ++ repeat 0 (255 - i).

(** The histogram of an RGB image of [n] pixels, all of colour (r, g, b). *)
Definition solid (r g b : nat) (n : Z) : list Z :=
  spike r n ++ spike g n ++ spike b n.

Definition rgb_image (r g b : nat) : Image := {| histogram := solid r g b 4 |}.

(** A single-band image ("L" or "P" mode): 256 buckets only. *)
Definition grey_image (v : nat) : Image := {| histogram := spike v 4 |}.

(** An RGBA image: a fourth block of 256 buckets for the alpha band. *)
Definition rgba_histogram (r g b a : nat) (n : Z) : list Z :=
  solid r g b n ++ spike a n.

Definition record (s n u : string) : RawRecord :=
  {| raw_symbol := Str s; raw_shortName := Str n; raw_logo_url := Str u |}.

Fixpoint assoc {V} (l : list (string * V)) (k : string) : option V :=
  match l with
  | [] => None
  | (k', v) :: t => if String.eqb k k' then Some v else assoc t k
  end.

(** A machine whose working directory is [/app], with the feed [feed] in
    [spy_data.json], the files [disk], and a network that answers [net]. *)
Definition world_of (feed : list (string * RawRecord))
  (net disk : list (string * Blob)) : World :=
  {| cwd := "/app";
     files := assoc (("/app/spy_data.json"%string, JsonBlob (Some feed)) :: disk);
     web := assoc net;
     writable := fun _ => true;
     log := [] |}.

Definition query_path : string := "/app/static/logo_cache/query.png".

Definition query_histogram : list Z := solid 10 20 30 4.

Definition query_image : Image := {| histogram := query_histogram |}.

Definition query_file : string * Blob := (query_path, ImageBlob query_image).

(** The same picture with an opaque alpha band. *)
Definition query_histogram_rgba : list Z := rgba_histogram 10 20 30 255 4.

Definition grey_query_path : string := "/app/static/logo_cache/grey.png".

(** Seven companies; B and C have logos of one and the same colour. *)
Definition market : World :=
  world_of
    [("A", record "A" "Alpha" "https://logos/a.png");
     ("B", record "B" "Beta" "https://logos/b.png");
     ("C", record "C" "Gamma" "https://logos/c.png");
     ("D", record "D" "Delta" "https://logos/d.png");
     ("E", record "E" "Epsilon" "https://logos/e.png");
     ("F", record "F" "Zeta" "https://logos/f.png");
     ("G", record "G" "Eta" "https://logos/g.png")]%string
    [("http://logos/a.png", ImageBlob (rgb_image 12 20 30));
     ("http://logos/b.png", ImageBlob (rgb_image 40 20 30));
     ("http://logos/c.png", ImageBlob (rgb_image 40 20 30));
     ("http://logos/d.png", ImageBlob (rgb_image 100 100 100));
     ("http://logos/e.png", ImageBlob (rgb_image 200 0 0));
     ("http://logos/f.png", ImageBlob (rgb_image 255 255 255));
     ("http://logos/g.png", ImageBlob (rgb_image 0 0 0))]%string
    [query_file].

(** Two records of the feed carry the same symbol. *)
Definition twins : World :=
  world_of
    [("AAA", record "AAA" "First" "https://logos/a.png");
     ("AAA.X", record "AAA" "Second" "https://logos/b.png");
     ("CCC", record "CCC" "Third" "https://logos/c.png")]%string
    [("http://logos/a.png", ImageBlob (rgb_image 12 20 30));
     ("http://logos/b.png", ImageBlob (rgb_image 40 20 30));
     ("http://logos/c.png", ImageBlob (rgb_image 0 0 0))]%string
    [query_file].

(** One logo of the feed is a single-band image. *)
Definition with_grey_logo : World :=
  world_of
    [("A", record "A" "Alpha" "https://logos/a.png");
     ("B", record "B" "Beta" "https://logos/b.png")]%string
    [("http://logos/a.png", ImageBlob (rgb_image 12 20 30));
     ("http://logos/b.png", ImageBlob (grey_image 128))]%string
    [query_file; (grey_query_path, ImageBlob (grey_image 7))].

(** Records with an empty display name, an empty symbol, an empty url, a
    null url and no url at all. *)
Definition empty_fields_feed : list (string * RawRecord) :=
  [("A", record "A" "Alpha" "https://logos/a.png");
   ("B", record "B" "" "https://logos/b.png");
   ("C", record "" "Gamma" "https://logos/c.png");
   ("D", record "D" "Delta" "");
   ("E", {| raw_symbol := Str "E"; raw_shortName := Str "Epsilon";
            raw_logo_url := Null |});
   ("F", {| raw_symbol := Str "F"; raw_shortName := Str "Zeta";
            raw_logo_url := Absent |})]%string.

Definition with_empty_fields : World :=
  world_of empty_fields_feed
    [("http://logos/a.png", ImageBlob (rgb_image 12 20 30));
     ("http://logos/b.png", ImageBlob (rgb_image 200 0 0));
     ("http://logos/c.png", ImageBlob (rgb_image 0 0 0))]%string
    [query_file].

(** A feed of four records of which one has a usable logo: one url does not
    answer, one answers bytes that are no image, one is empty. *)
Definition lonely : World :=
  world_of
    [("A", record "A" "Alpha" "https://logos/a.png");
     ("B", record "B" "Beta" "https://logos/unreachable.png");
     ("C", record "C" "Gamma" "https://logos/page.html");
     ("D", record "D" "Delta" "")]%string
    [("http://logos/a.png", ImageBlob (rgb_image 12 20 30));
     ("http://logos/page.html", OtherBlob)]%string
    [query_file].

Definition empty_system : System :=
  {| clean_data := []; indices := []; current_image := None;
     current_histogram := None; current_rgb := None |}.

(** The system that [__init__] builds in world [w]. *)
Definition built (w : World) : System :=
  match fst (__init__ w) with
  | Ok self => self
  | Raise _ => empty_system
  end.

(** The frame that lines 43 to 50 of [__init__] leave in world [w]. *)
Definition loaded (w : World) : list Row :=
  match fst (load_clean_data w) with
  | Ok rows => rows
  | Raise _ => []
  end.

(** The signature of the query image. *)
Definition query_signature : list Qc :=
  match average_color_from_histogram query_histogram with
  | Ok q => q
  | Raise _ => []
  end.

(** What [get_recommendation] returns for the file [path]. *)
Definition recommended (w : World) (path : string) (self : System)
  : list (string * string) * list Qc :=
  match fst (get_recommendation w path self) with
  | Ok out => out
  | Raise _ => ([], [])
  end.

(** The rows of D and B of [lonely], as the first [dropna()] leaves them. *)
Definition row_without_url : Row :=
  {| index := "D"; symbol := "D"; shortName := "Delta"; logo_url := "";
     image := None; average_color := None; rgb_distance := None |}.


(** The world the build leaves behind: the logos are in the cache. *)
Definition after_build (w : World) : World := snd (__init__ w).

(** Two signatures. *)
Definition reddish : list Qc := [Qc_of_nat 255; Qc_of_nat 0; Qc_of_nat 40].

Definition dark : list Qc := [Qc_of_nat 10; Qc_of_nat 20; Qc_of_nat 30].

End Examples.

(** ** More inputs *)

Module MoreExamples.
Import Signature RecommendationSystem WebApp Examples.

(** A catalog row with the signature [c]. *)
Definition row_of_colour (name : string) (c : list Qc) : Row :=
  {| index := name; symbol := name; shortName := name;
     logo_url := "https://logos/x.png";
     image := Some (Loaded query_image); average_color := Some c;
     rgb_distance := None |}.

(** A system that has [q] as the signature of its current query. *)
Definition querying (q : list Qc) : System :=
  {| clean_data := []; indices := []; current_image := None;
     current_histogram := None; current_rgb := Some q |}.

(** The row of A in [market], as the first [dropna()] leaves it. *)
Definition row_A : Row :=
  {| index := "A"; symbol := "A"; shortName := "Alpha";
     logo_url := "https://logos/a.png";
     image := None; average_color := None; rgb_distance := None |}.

(** Another record with the symbol of A and a url that does not answer. *)
Definition row_A_again : Row :=
  {| index := "A2"; symbol := "A"; shortName := "Alpha, again";
     logo_url := "https://logos/unreachable.png";
     image := None; average_color := None; rgb_distance := None |}.

(** The machine [w] with the network down. *)
Definition offline (w : World) : World :=
  {| cwd := cwd w; files := files w; web := fun _ => None;
     writable := writable w; log := log w |}.

(** A machine without [spy_data.json], one whose [spy_data.json] has no
    ["stock_data"], and one whose records have no [logo_url]. *)
Definition no_feed : World :=
  {| cwd := "/app"; files := fun _ => None; web := fun _ => None;
     writable := fun _ => true; log := [] |}.

Definition no_stock_data : World :=
  {| cwd := "/app";
     files := assoc [("/app/spy_data.json"%string, JsonBlob None)];
     web := fun _ => None; writable := fun _ => true; log := [] |}.

Definition no_logo_column : World :=
  world_of
    [("A"%string, {| raw_symbol := Str "A"; raw_shortName := Str "Alpha";
                     raw_logo_url := Absent |})] [] [].

(** A record whose logo is served over plain http. *)
Definition row_plain_http : Row :=
  {| index := "H"; symbol := "H"; shortName := "Eta";
     logo_url := "http://logos/h.png";
     image := None; average_color := None; rgb_distance := None |}.

(** The row of B in [market]. *)
Definition row_B : Row :=
  {| index := "B"; symbol := "B"; shortName := "Beta";
     logo_url := "https://logos/b.png";
     image := None; average_color := None; rgb_distance := None |}.

(** A [secure_filename] that finds nothing to change, and scores shown
    as they are. *)
Definition plain_name (s : string) : string := s.

Definition no_rounding (x : Qc) : Qc := x.

(** The running application after the build in [market]. *)
Definition running : App :=
  {| world := after_build market; StockRec := built market; flashes := [] |}.

(** An upload named [B.png] that is a page of text, and requests that are
    turned away. *)
Definition text_as_png : Request :=
  {| method := POST;
     logo := Some {| filename := "B.png"; stream := OtherBlob |} |}.

Definition plain_get : Request := {| method := GET; logo := None |}.

Definition post_without_part : Request := {| method := POST; logo := None |}.

Definition post_without_name : Request :=
  {| method := POST;
     logo := Some {| filename := ""; stream := OtherBlob |} |}.

Definition post_of_a_script : Request :=
  {| method := POST;
     logo := Some {| filename := "logo.png.exe"; stream := OtherBlob |} |}.

(** The feed of [with_grey_logo] on a machine that has, in the cache file
    of B, an image file cut short: the header is there, the data are not. *)
Definition with_truncated_cache : World :=
  world_of
    [("A", record "A" "Alpha" "https://logos/a.png");
     ("B", record "B" "Beta" "https://logos/b.png")]%string
    [("http://logos/a.png", ImageBlob (rgb_image 12 20 30));
     ("http://logos/b.png", ImageBlob (rgb_image 40 20 30))]%string
    [query_file;
     ("/app/static/logo_cache/B.png"%string, TruncatedBlob)].

(** An upload named [B.png] that is an image file cut short. *)
Definition truncated_as_png : Request :=
  {| method := POST;
     logo := Some {| filename := "B.png"; stream := TruncatedBlob |} |}.

(** The row of C in [empty_fields_feed]: the symbol is empty. *)
Definition row_without_symbol : Row :=
  {| index := "C"; symbol := ""; shortName := "Gamma";
     logo_url := "https://logos/c.png";
     image := None; average_color := None; rgb_distance := None |}.

(** The signature [reddish] with its channels in another order. *)
Definition shuffled : list Qc := [Qc_of_nat 40; Qc_of_nat 255; Qc_of_nat 0].

End MoreExamples.

(** ** Lemmas on the built-ins *)

Lemma fold_left_add_acc (l : list Z) (a : Z) :
  fold_left Z.add l a = a + fold_left Z.add l 0.
Proof.
  revert a. induction l as [|x t IH]; intros a; simpl.
  - lia.
  - rewrite (IH (a + x)), (IH x). lia.
Qed.

Lemma sum_nil : sum [] = 0.
Proof. reflexivity. Qed.

Lemma sum_cons (x : Z) (l : list Z) : sum (x :: l) = x + sum l.
Proof. unfold sum. simpl. apply fold_left_add_acc. Qed.

Lemma slice_firstn {A} (lo hi n : nat) (l : list A) :
  (hi <= n)%nat -> slice lo hi (firstn n l) = slice lo hi l.
Proof.
  intros Hn. unfold slice.
  rewrite skipn_firstn_comm, firstn_firstn.
  f_equal. lia.
Qed.

Lemma firstn_ext_nth_error {A} (n : nat) (l1 l2 : list A) :
  (forall i, (i < n)%nat -> nth_error l1 i = nth_error l2 i) ->
  firstn n l1 = firstn n l2.
Proof.
  revert l1 l2. induction n as [|n IH]; intros l1 l2 H; [reflexivity|].
  pose proof (H 0%nat ltac:(lia)) as H0.
  destruct l1 as [|x1 t1], l2 as [|x2 t2]; simpl in H0; try discriminate;
    [reflexivity|].
  injection H0 as ->. simpl. f_equal.
  apply IH. intros i Hi. apply (H (S i)). lia.
Qed.

Module SignatureFacts.
Import Signature.

Lemma big_sum_zero (f : nat -> Z) (n : nat) :
  (forall i, f i = 0) -> big_sum f n = 0.
Proof.
  intros Hf. unfold big_sum.
  induction (seq 0 n) as [|i t IH]; simpl; [reflexivity|].
  rewrite Hf, IH. reflexivity.
Qed.

Lemma big_sum_S (f : nat -> Z) (n : nat) :
  big_sum f (S n) = f 0%nat + big_sum (fun i => f (S i)) n.
Proof.
  unfold big_sum. simpl. f_equal.
  rewrite <- seq_shift, map_map. reflexivity.
Qed.

Lemma big_sum_ext (f g : nat -> Z) (n : nat) :
  (forall i, f i = g i) -> big_sum f n = big_sum g n.
Proof.
  intros H. unfold big_sum. f_equal. apply map_ext. intros i. apply H.
Qed.

(** The sum of a prefix, bucket by bucket. *)
Lemma sum_firstn (n : nat) (l : list Z) :
  sum (firstn n l) = big_sum (fun i => nth i l 0) n.
Proof.
  revert l. induction n as [|n IH]; intros l; [reflexivity|].
  rewrite big_sum_S. destruct l as [|x t]; simpl firstn.
  - rewrite sum_nil. simpl nth. rewrite big_sum_zero; [reflexivity|].
    intros i. destruct i; reflexivity.
  - rewrite sum_cons, IH. reflexivity.
Qed.

(** The weighted sum of an enumerated prefix, bucket by bucket. *)
Lemma weighted_firstn (n : nat) (l : list Z) (k : Z) :
  sum (map (fun iw => fst iw * snd iw) (enumerate_from k (firstn n l)))
  = big_sum (fun i => (k + Z.of_nat i) * nth i l 0) n.
Proof.
  revert l k. induction n as [|n IH]; intros l k; [reflexivity|].
  rewrite big_sum_S. destruct l as [|x t]; simpl firstn.
  - simpl. rewrite sum_nil, big_sum_zero; [lia|].
    intros i. destruct i; simpl; lia.
  - simpl enumerate_from. simpl map. rewrite sum_cons, IH.
    simpl fst. simpl snd. simpl nth. f_equal; [f_equal; lia|].
    apply big_sum_ext. intros i. f_equal. lia.
Qed.

Lemma nth_skipn_add (lo i : nat) (l : list Z) :
  nth i (skipn lo l) 0 = nth (lo + i) l 0.
Proof.
  revert l. induction lo as [|lo IH]; intros l; [reflexivity|].
  destruct l as [|x t]; simpl.
  - destruct i; reflexivity.
  - apply IH.
Qed.

Lemma sum_slice_channel (h : list Z) (c : nat) :
  sum (slice (256 * c) (256 * c + 256) h) = channel_total h c.
Proof.
  unfold slice, channel_total, bucket_count.
  replace (256 * c + 256 - 256 * c)%nat with 256%nat by lia.
  rewrite sum_firstn. apply big_sum_ext. intros i. apply nth_skipn_add.
Qed.

Lemma weighted_slice_channel (h : list Z) (c : nat) :
  weighted_sum (slice (256 * c) (256 * c + 256) h) = channel_weighted h c.
Proof.
  unfold weighted_sum, enumerate, slice, channel_weighted, bucket_count.
  replace (256 * c + 256 - 256 * c)%nat with 256%nat by lia.
  rewrite weighted_firstn. apply big_sum_ext. intros i.
  rewrite nth_skipn_add. f_equal.
Qed.

Lemma truediv_nonzero (a b : Z) :
  b <> 0 -> truediv a b = Ok (Q2Qc (inject_Z a / inject_Z b)).
Proof.
  intros Hb. unfold truediv.
  destruct (Z.eqb_spec b 0) as [E|_]; [contradiction|reflexivity].
Qed.

Lemma truediv_zero (a : Z) : truediv a 0 = Raise ZeroDivisionError.
Proof. reflexivity. Qed.

(** The three slices of the source are the three channels. *)
Lemma channels_of_slices (h : list Z) :
  Signature.average_color_from_histogram h =
  (x0 <- truediv (channel_weighted h 0) (channel_total h 0) ;;
   x1 <- truediv (channel_weighted h 1) (channel_total h 1) ;;
   x2 <- truediv (channel_weighted h 2) (channel_total h 2) ;;
   Ok [x0; x1; x2]).
Proof.
  unfold average_color_from_histogram.
  change (slice 0 256 h) with (slice (256 * 0) (256 * 0 + 256) h).
  change (slice 256 (256 * 2) h) with (slice (256 * 1) (256 * 1 + 256) h).
  change (slice (256 * 2) (256 * 3) h)
    with (slice (256 * 2) (256 * 2 + 256) h).
  rewrite !sum_slice_channel, !weighted_slice_channel. reflexivity.
Qed.

End SignatureFacts.

(** ** The colour signature *)

Module SignatureSpec.
Import Signature SignatureFacts Examples.

Lemma signature_firstn_768 (h : list Z) :
  average_color_from_histogram (firstn 768 h) = average_color_from_histogram h.
Proof.
  unfold average_color_from_histogram.
  rewrite !slice_firstn by lia. reflexivity.
Qed.

(** A channel whose bucket counts add up to zero makes the signature raise
    [ZeroDivisionError]: no value is returned. *)
Lemma signature_zero_total (h : list Z) :
  RecommendationSystem.degenerate h = true ->
  average_color_from_histogram h = Raise ZeroDivisionError.
Proof.
  unfold RecommendationSystem.degenerate. intros H.
  rewrite channels_of_slices. unfold truediv.
  destruct (channel_total h 0 =? 0); [reflexivity|].
  destruct (channel_total h 1 =? 0); [reflexivity|].
  destruct (channel_total h 2 =? 0); [reflexivity|discriminate].
Qed.

Lemma signature_nonzero_total (h : list Z) :
  RecommendationSystem.degenerate h = false ->
  exists x0 x1 x2, average_color_from_histogram h = Ok [x0; x1; x2].
Proof.
  unfold RecommendationSystem.degenerate. intros H.
  rewrite channels_of_slices. unfold truediv.
  destruct (channel_total h 0 =? 0); [discriminate|].
  destruct (channel_total h 1 =? 0); [discriminate|].
  destruct (channel_total h 2 =? 0); [discriminate|].
  simpl. eauto.
Qed.

(** C2. When the bucket counts of each of the three channels (buckets
    0..255, 256..511 and 512..767 of the histogram) do not add up to zero,
    [average_color_from_histogram] returns the three-element list whose
    component for channel c is the sum of bucket index times bucket count
    over the sum of the bucket counts of that channel. *)
Theorem signature_is_weighted_mean (h : list Z) :
  channel_total h 0 <> 0 ->
  channel_total h 1 <> 0 ->
  channel_total h 2 <> 0 ->
  average_color_from_histogram h =
  Ok [spec_channel_mean h 0; spec_channel_mean h 1; spec_channel_mean h 2].
Proof.
  intros H0 H1 H2. rewrite channels_of_slices.
  rewrite !truediv_nonzero by assumption. reflexivity.
Qed.

Lemma signature_is_weighted_mean_witness :
  (channel_total query_histogram 0 <> 0
   /\ channel_total query_histogram 1 <> 0
   /\ channel_total query_histogram 2 <> 0)
  /\ average_color_from_histogram query_histogram =
     Ok [spec_channel_mean query_histogram 0;
         spec_channel_mean query_histogram 1;
         spec_channel_mean query_histogram 2].
Proof.
  assert (T0 : channel_total query_histogram 0 <> 0)
    by (vm_compute; discriminate).
  assert (T1 : channel_total query_histogram 1 <> 0)
    by (vm_compute; discriminate).
  assert (T2 : channel_total query_histogram 2 <> 0)
    by (vm_compute; discriminate).
  split; [auto|].
  exact (signature_is_weighted_mean query_histogram T0 T1 T2).
Defined.

(** C10. The signature depends on the first 768 entries of the histogram
    only: two histograms that agree at every index from 0 to 767 have the
    same signature (or fail alike), and the alpha buckets that follow the
    768 colour buckets of an RGBA histogram change nothing. *)
Theorem signature_reads_first_768 :
  (forall h1 h2 : list Z,
      (forall i, (i < 768)%nat -> nth_error h1 i = nth_error h2 i) ->
      average_color_from_histogram h1 = average_color_from_histogram h2)
  /\ (forall rgb alpha : list Z,
         length rgb = 768%nat ->
         average_color_from_histogram (rgb ++ alpha)
         = average_color_from_histogram rgb).
Proof.
  split.
  - intros h1 h2 H.
    rewrite <- (signature_firstn_768 h1), <- (signature_firstn_768 h2).
    f_equal. apply firstn_ext_nth_error, H.
  - intros rgb alpha Hlen.
    rewrite <- (signature_firstn_768 (rgb ++ alpha)).
    rewrite <- Hlen, firstn_app, Nat.sub_diag, firstn_all.
    simpl. rewrite app_nil_r. reflexivity.
Qed.

Lemma signature_reads_first_768_witness :
  (forall i, (i < 768)%nat ->
             nth_error query_histogram i = nth_error query_histogram_rgba i)
  /\ length query_histogram = 768%nat
  /\ average_color_from_histogram query_histogram
     = average_color_from_histogram query_histogram_rgba
  /\ average_color_from_histogram (query_histogram ++ spike 255 4)
     = average_color_from_histogram query_histogram.
Proof.
  assert (L : length query_histogram = 768%nat) by (vm_compute; reflexivity).
  assert (A : forall i, (i < 768)%nat ->
                nth_error query_histogram i
                = nth_error query_histogram_rgba i).
  { intros i Hi. unfold query_histogram_rgba, rgba_histogram.
    change (solid 10 20 30 4) with query_histogram.
    rewrite nth_error_app1; [reflexivity|]. rewrite L. exact Hi. }
  split; [exact A|]. split; [exact L|]. split.
  - exact (proj1 signature_reads_first_768 _ _ A).
  - exact (proj2 signature_reads_first_768 _ (spike 255 4) L).
Defined.

End SignatureSpec.

(** ** Sorting *)

Module SortFacts.
Import Numpy.

Lemma Qcleb_true (x y : Qc) : Qcleb x y = true <-> (x <= y)%Qc.
Proof. unfold Qcleb, Qcle. apply Qle_bool_iff. Qed.

Lemma Qcleb_false (x y : Qc) : Qcleb x y = false -> (y <= x)%Qc.
Proof.
  intros H. apply Qclt_le_weak, Qcnot_le_lt. intros Hle.
  apply Qcleb_true in Hle. congruence.
Qed.

Section SortBy.
Context {A : Type} (key : A -> Qc).

Lemma insert_by_perm (a : A) (l : list A) :
  Permutation (insert_by key a l) (a :: l).
Proof.
  induction l as [|b t IH]; simpl; [reflexivity|].
  destruct (Qcleb (key a) (key b)); [reflexivity|].
  rewrite IH. apply perm_swap.
Qed.

Lemma sort_by_perm (l : list A) : Permutation (sort_by key l) l.
Proof.
  induction l as [|a t IH]; simpl; [reflexivity|].
  rewrite insert_by_perm. apply perm_skip, IH.
Qed.

Lemma sort_by_length (l : list A) : length (sort_by key l) = length l.
Proof. apply Permutation_length, sort_by_perm. Qed.

Lemma insert_by_sorted (a : A) (l : list A) :
  StronglySorted (key_le key) l -> StronglySorted (key_le key) (insert_by key a l).
Proof.
  induction l as [|b t IH]; intros Hs; simpl.
  - repeat constructor.
  - inversion Hs as [|? ? Ht Hb]; subst.
    destruct (Qcleb (key a) (key b)) eqn:E.
    + apply Qcleb_true in E. constructor; [exact Hs|].
      constructor; [exact E|].
      eapply Forall_impl; [|exact Hb].
      intros c Hc. unfold key_le in *. eapply Qcle_trans; eassumption.
    + apply Qcleb_false in E. constructor; [apply IH, Ht|].
      eapply Permutation_Forall;
        [symmetry; apply insert_by_perm|].
      constructor; assumption.
Qed.

Lemma sort_by_sorted (l : list A) : StronglySorted (key_le key) (sort_by key l).
Proof.
  induction l as [|a t IH]; simpl; [constructor|].
  apply insert_by_sorted, IH.
Qed.
End SortBy.

(** A sorted list of floats is determined by the values it holds. *)
Lemma sorted_perm_unique (l1 l2 : list Qc) :
  StronglySorted Qcle l1 -> StronglySorted Qcle l2 ->
  Permutation l1 l2 -> l1 = l2.
Proof.
  revert l2. induction l1 as [|a t1 IH]; intros l2 H1 H2 P.
  - apply Permutation_nil in P. congruence.
  - destruct l2 as [|b t2];
      [apply Permutation_sym, Permutation_nil in P; discriminate|].
    inversion H1 as [|? ? Ht1 Ha]; inversion H2 as [|? ? Ht2 Hb]; subst.
    assert (a = b) as ->.
    { assert (Ia : In a (b :: t2))
        by (eapply Permutation_in; [exact P|left; reflexivity]).
      assert (Ib : In b (a :: t1))
        by (eapply Permutation_in;
            [symmetry; exact P|left; reflexivity]).
      destruct Ia as [->|Ia]; [reflexivity|].
      destruct Ib as [->|Ib]; [reflexivity|].
      rewrite Forall_forall in Ha, Hb.
      apply Qcle_antisym; [apply Ha, Ib|apply Hb, Ia]. }
    f_equal. apply IH; try assumption.
    eapply Permutation_cons_inv, P.
Qed.

Lemma sort_sorted (l : list Qc) : StronglySorted Qcle (sort l).
Proof. apply (sort_by_sorted (fun x => x)). Qed.

Lemma sort_perm_eq (l1 l2 : list Qc) :
  Permutation l1 l2 -> sort l1 = sort l2.
Proof.
  intros P. apply sorted_perm_unique; try apply sort_sorted.
  unfold sort. rewrite !sort_by_perm. exact P.
Qed.

End SortFacts.

(** ** The distance *)

Module DistanceSpec.
Import Numpy Scipy SortFacts.

Lemma abs_diff_times_comm (x y d : list Qc) :
  abs_diff_times x y d = abs_diff_times y x d.
Proof.
  revert y d. induction x as [|a x IH]; intros [|b y] [|e d]; simpl;
    try reflexivity.
  rewrite Qcabs_Qcminus, IH. reflexivity.
Qed.

Lemma fsum_abs_diff_times_same (x d : list Qc) (acc : Qc) :
  fold_left Qcplus (abs_diff_times x x d) acc = acc.
Proof.
  revert d acc. induction x as [|a x IH]; intros [|e d] acc; simpl;
    try reflexivity.
  rewrite IH.
  replace (a - a)%Qc with 0%Qc by ring.
  rewrite (Qcabs_pos 0%Qc) by apply Qcle_refl. ring.
Qed.

Lemma wasserstein_distance_sym (u v : list Qc) :
  wasserstein_distance u v = wasserstein_distance v u.
Proof.
  destruct u as [|u0 u], v as [|v0 v]; try reflexivity.
  unfold wasserstein_distance. cbv beta iota zeta.
  rewrite (sort_perm_eq ((u0 :: u) ++ v0 :: v) ((v0 :: v) ++ u0 :: u))
    by apply Permutation_app_comm.
  rewrite abs_diff_times_comm. reflexivity.
Qed.

Lemma wasserstein_distance_self (u : list Qc) :
  u <> [] -> wasserstein_distance u u = Ok 0%Qc.
Proof.
  destruct u as [|u0 u]; [congruence|]. intros _.
  unfold wasserstein_distance, fsum. cbv beta iota zeta.
  rewrite fsum_abs_diff_times_same. reflexivity.
Qed.

Lemma wasserstein_distance_total (u v : list Qc) :
  u <> [] -> v <> [] -> exists d, wasserstein_distance u v = Ok d.
Proof.
  destruct u as [|u0 u], v as [|v0 v]; try congruence. intros _ _.
  unfold wasserstein_distance. cbv beta iota zeta. eauto.
Qed.

(** C9. On two signatures of three components the distance does not depend
    on the order of its arguments, and the distance of a signature to
    itself is zero. *)
Theorem distance_symmetric_and_zero_on_self (a b : list Qc) :
  length a = 3%nat -> length b = 3%nat ->
  wasserstein_distance a b = wasserstein_distance b a
  /\ wasserstein_distance a a = Ok 0%Qc.
Proof.
  intros Ha Hb. split.
  - apply wasserstein_distance_sym.
  - apply wasserstein_distance_self. intros ->. discriminate.
Qed.

Lemma distance_symmetric_and_zero_on_self_witness :
  wasserstein_distance Examples.reddish Examples.dark
  = wasserstein_distance Examples.dark Examples.reddish
  /\ wasserstein_distance Examples.reddish Examples.reddish = Ok 0%Qc.
Proof.
  apply (distance_symmetric_and_zero_on_self Examples.reddish Examples.dark);
    reflexivity.
Defined.

End DistanceSpec.

(** ** Effects and exceptions *)

Module EffFacts.

Lemma mapM_Forall2 {A B} (f : A -> result B) (l : list A) (ys : list B) :
  mapM f l = Ok ys <-> Forall2 (fun x y => f x = Ok y) l ys.
Proof.
  revert ys. induction l as [|x t IH]; intros ys; simpl.
  - split.
    + intros H. injection H as <-. constructor.
    + intros H. inversion H. reflexivity.
  - split.
    + intros H. destruct (f x) as [y|e] eqn:Ex; simpl in H; [|discriminate].
      destruct (mapM f t) as [ys'|e] eqn:Et; simpl in H; [|discriminate].
      injection H as <-. constructor; [exact Ex|]. apply IH. reflexivity.
    + intros H. inversion H as [|? y ? ys' Hx Ht]; subst.
      rewrite Hx. simpl. apply IH in Ht. rewrite Ht. reflexivity.
Qed.

Lemma mapM_ok_map {A B} (f : A -> result B) (g : A -> B) (l : list A) :
  (forall x, In x l -> f x = Ok (g x)) -> mapM f l = Ok (map g l).
Proof.
  induction l as [|x t IH]; intros H; simpl; [reflexivity|].
  rewrite (H x) by (left; reflexivity). simpl.
  rewrite IH by (intros y Hy; apply H; right; exact Hy). reflexivity.
Qed.

Lemma mapM_map {A B C} (f : B -> result C) (g : A -> B) (l : list A) :
  mapM f (map g l) = mapM (fun x => f (g x)) l.
Proof.
  induction l as [|x t IH]; simpl; [reflexivity|]. rewrite IH. reflexivity.
Qed.

Lemma mapM_ext {A B} (f g : A -> result B) (l : list A) :
  (forall x, f x = g x) -> mapM f l = mapM g l.
Proof.
  intros H. induction l as [|x t IH]; simpl; [reflexivity|].
  rewrite H, IH. reflexivity.
Qed.

Lemma mapM_length {A B} (f : A -> result B) (l : list A) (ys : list B) :
  mapM f l = Ok ys -> length ys = length l.
Proof.
  intros H. apply mapM_Forall2 in H. symmetry.
  induction H; simpl; congruence.
Qed.

Lemma mapM_total {A B} (f : A -> result B) (l : list A) :
  (forall x, In x l -> exists y, f x = Ok y) -> exists ys, mapM f l = Ok ys.
Proof.
  induction l as [|x t IH]; intros H; simpl; [eauto|].
  destruct (H x) as [y Hy]; [left; reflexivity|].
  destruct IH as [ys Hys]; [intros z Hz; apply H; right; exact Hz|].
  rewrite Hy, Hys. simpl. eauto.
Qed.

(** The first element that raises decides the exception of the loop. *)
Lemma mapM_raise {A B} (f : A -> result B) (l : list A) (e : exn) :
  (forall x, In x l -> (exists y, f x = Ok y) \/ f x = Raise e) ->
  (exists x, In x l /\ f x = Raise e) ->
  mapM f l = Raise e.
Proof.
  induction l as [|x t IH]; intros Hall [z [Hz Hfz]]; [destruct Hz|].
  simpl. destruct (Hall x) as [[y Hy]|Hx]; [left; reflexivity| |].
  - rewrite Hy. simpl. rewrite IH; [reflexivity| |].
    + intros u Hu. apply Hall. right. exact Hu.
    + destruct Hz as [->|Hz]; [congruence|]. eauto.
  - rewrite Hx. reflexivity.
Qed.

(** A loop over a list with an element that raises ends with the exception
    of such an element. *)
Lemma mapM_raises {A B} (f : A -> result B) (l : list A) :
  (exists x e, In x l /\ f x = Raise e) ->
  exists x e, In x l /\ f x = Raise e /\ mapM f l = Raise e.
Proof.
  induction l as [|x t IH]; intros [z [e [Hz Hfz]]]; [destruct Hz|].
  simpl. destruct (f x) as [y|e'] eqn:Ex.
  - destruct Hz as [->|Hz]; [congruence|].
    destruct IH as [u [e1 [Hu [Eu M]]]]; [eauto|].
    exists u, e1. split; [right; exact Hu|]. split; [exact Eu|].
    rewrite M. reflexivity.
  - exists x, e'. split; [left; reflexivity|]. split; [exact Ex|reflexivity].
Qed.

Lemma try_except_total {S A} (body handler : Eff S A) (s : S) :
  (forall s1, exists a s2, handler s1 = (Ok a, s2)) ->
  exists a s', try_except body handler s = (Ok a, s').
Proof.
  intros H. unfold try_except.
  destruct (body s) as [[a|e] s']; [eauto|apply H].
Qed.

Lemma mapE_total {S A B} (f : A -> Eff S B) (l : list A) :
  (forall x s, exists y s', f x s = (Ok y, s')) ->
  forall s, exists ys s', mapE f l s = (Ok ys, s') /\ length ys = length l.
Proof.
  intros H. induction l as [|x t IH]; intros s; simpl.
  - exists [], s. split; reflexivity.
  - unfold bindE. destruct (H x s) as [y [s1 Hy]]. rewrite Hy.
    destruct (IH s1) as [ys [s2 [Hys Hlen]]]. rewrite Hys.
    exists (y :: ys), s2. split; [reflexivity|]. simpl. congruence.
Qed.

Lemma mapE_Forall2 {S A B} (f : A -> Eff S B) (l : list A) :
  forall s ys s', mapE f l s = (Ok ys, s') ->
  Forall2 (fun x y => exists s1 s2, f x s1 = (Ok y, s2)) l ys.
Proof.
  induction l as [|x t IH]; intros s ys s' H; simpl in H.
  - injection H as <- _. constructor.
  - unfold bindE in H. destruct (f x s) as [[y|e] s1] eqn:Ex; [|discriminate].
    destruct (mapE f t s1) as [[ys'|e] s2] eqn:Et; [|discriminate].
    injection H as <- _. constructor; [eauto|]. eapply IH, Et.
Qed.

End EffFacts.

(** ** The logo cache and the catalog build *)

Module BuildFacts.
Import Signature Pandas RecommendationSystem EffFacts.

Lemma log_error_total (row : Row) (w : World) :
  exists r w',
    (_ <-- Logging.info (String.append "Got an error " (shortName row)) ;;
     ret (@None Picture)) w = (Ok r, w').
Proof. unfold bindE, Logging.info, ret. eauto. Qed.

Lemma download_logos_total (row : Row) (w : World) :
  exists r w', download_logos row w = (Ok r, w').
Proof.
  unfold download_logos. destruct (nonempty (logo_url row)).
  - apply try_except_total. intros s1. apply log_error_total.
  - apply log_error_total.
Qed.

Lemma download_logos_empty_url (row : Row) (w : World) :
  logo_url row = ""%string ->
  download_logos row w
  = (Ok None,
     set_log w (log w ++ [String.append "Got an error " (shortName row)])).
Proof.
  intros E. unfold download_logos, nonempty. rewrite E. reflexivity.
Qed.

(** [download_logos] on a row with a url, case by case. *)
Lemma download_logos_with_url (row : Row) (w : World) :
  logo_url row <> ""%string ->
  download_logos row w
  = match files w (cache_location w row) with
    | Some b =>
        match Pil.identify b with
        | Some picture => (Ok (Some picture), w)
        | None => (Ok None, logged w row)
        end
    | None =>
        match web w (fetch_url row) with
        | Some (ImageBlob img) =>
            if (Pil.has_format (cache_location w row)
                && writable w (cache_location w row))%bool
            then (Ok (Some (Loaded img)),
                  set_files w
                    (fun p => if String.eqb p (cache_location w row)
                              then Some (ImageBlob img) else files w p))
            else (Ok None, logged w row)
        | _ => (Ok None, logged w row)
        end
    end.
Proof.
  intros U. unfold download_logos, nonempty, logged.
  destruct (String.eqb_spec (logo_url row) "") as [E|_]; [contradiction|].
  unfold try_except, bindE, Os.isfile, Pil.open, Urllib.urlopen,
    Pil.open_stream, Pil.save, Logging.info, ret, raise. simpl.
  destruct (files w (cache_location w row)) as [b|] eqn:F; simpl;
    rewrite ?F.
  - destruct (Pil.identify b); reflexivity.
  - destruct (web w (fetch_url row)) as [[i| |j|]|]; simpl; try reflexivity.
    destruct (Pil.has_format (cache_location w row)); simpl;
      [|reflexivity].
    destruct (writable w (cache_location w row)); reflexivity.
Qed.

(** When [download_logos] returns a picture, the row has a url. *)
Lemma download_logos_some_url (row : Row) (w w' : World)
  (picture : Picture) :
  download_logos row w = (Ok (Some picture), w') ->
  logo_url row <> ""%string.
Proof.
  intros D E. rewrite (download_logos_empty_url row w E) in D.
  discriminate D.
Qed.

(** When [download_logos] returns a loaded image, every step went
    through. *)
Lemma download_logos_some (row : Row) (w w' : World) (img : Image) :
  download_logos row w = (Ok (Some (Loaded img)), w') ->
  logo_url row <> ""%string
  /\ (files w (cache_location w row) = Some (ImageBlob img)
      \/ (files w (cache_location w row) = None
          /\ web w (fetch_url row) = Some (ImageBlob img)
          /\ Pil.has_format (cache_location w row) = true
          /\ writable w (cache_location w row) = true)).
Proof.
  intros D. pose proof (download_logos_some_url _ _ _ _ D) as U.
  split; [exact U|]. rewrite (download_logos_with_url row w U) in D.
  destruct (files w (cache_location w row)) as [b|] eqn:F.
  - left. destruct b as [i| |j|]; simpl in D; try discriminate D.
    congruence.
  - right. split; [reflexivity|].
    destruct (web w (fetch_url row)) as [[i| |j|]|] eqn:N;
      try discriminate D.
    destruct (Pil.has_format (cache_location w row)); simpl in D;
      [|discriminate D].
    destruct (writable w (cache_location w row)); [|discriminate D].
    repeat split. congruence.
Qed.


Lemma after_last_append (c : ascii) (x t : string) :
  Os.after_last c t = None ->
  Os.after_last c (String.append x (String c t)) = Some t.
Proof.
  intros H. induction x as [|a x IH]; simpl.
  - rewrite H, Ascii.eqb_refl. reflexivity.
  - rewrite IH. reflexivity.
Qed.

Lemma after_last_suffix (c : ascii) (x t : string) :
  Os.after_last c t = None ->
  Os.after_last c (String.append x t)
  = match Os.after_last c x with
    | Some rest => Some (String.append rest t)
    | None => None
    end.
Proof.
  intros H. induction x as [|a x IH]; simpl; [exact H|].
  rewrite IH. destruct (Os.after_last c x); [reflexivity|].
  destruct (Ascii.eqb a c); reflexivity.
Qed.

Lemma append_assoc (a b c : string) :
  String.append (String.append a b) c = String.append a (String.append b c).
Proof.
  induction a as [|x a IH]; simpl; [reflexivity|]. rewrite IH. reflexivity.
Qed.

(** A path that ends in [.png] has the extension [.png], or none when its
    file name is made of dots up to there. *)
Lemma extension_of_png (x : string) :
  Os.extension (String.append x ".png") = ".png"%string
  \/ Os.extension (String.append x ".png") = ""%string.
Proof.
  unfold Os.extension, Os.basename.
  rewrite (after_last_suffix "/" x ".png" eq_refl).
  assert (G : forall y,
             Os.after_last "." (Os.skip_dots (String.append y ".png"))
             = Some "png"%string
             \/ Os.after_last "." (Os.skip_dots (String.append y ".png"))
                = None).
  { induction y as [|a y IH]; [right; reflexivity|].
    destruct (Ascii.eqb_spec a ".") as [->|N]; [exact IH|].
    left.
    replace (Os.skip_dots (String.append (String a y) ".png"))
      with (String.append (String a y) ".png").
    - apply (after_last_append "." (String a y) "png"). reflexivity.
    - simpl. destruct a as [[] [] [] [] [] [] [] []]; try reflexivity.
      contradiction N. reflexivity. }
  destruct (Os.after_last "/" x) as [rest|].
  - destruct (G rest) as [-> | ->]; auto.
  - destruct (G x) as [-> | ->]; auto.
Qed.

(** The cache file of a row has the extension [.png] or none: no other
    format than PNG is ever written. *)
Lemma cache_location_extension (w : World) (row : Row) :
  Os.extension (cache_location w row) = ".png"%string
  \/ Os.extension (cache_location w row) = ""%string.
Proof.
  unfold cache_location, Os.path_join.
  destruct (Os.starts_with_slash _); [apply extension_of_png|].
  destruct (_ || _)%bool; rewrite <- ?append_assoc; apply extension_of_png.
Qed.

(** The second [dropna()] keeps the rows with an image, in order. *)
Lemma dropna_image_kept (df : list Row) (col : list (option Picture)) :
  dropna_image (set_image_column df col)
  = flat_map (fun ci => match snd ci with
                        | Some picture => [set_image (fst ci) (Some picture)]
                        | None => []
                        end) (combine df col).
Proof.
  unfold dropna_image, set_image_column.
  induction (combine df col) as [|[c [img|]] t IH]; simpl;
    [reflexivity| |exact IH].
  f_equal. exact IH.
Qed.

Lemma assign_apply_ok {S A B} (f : A -> Eff S B) (df : list A) (s s' : S)
  (ys : list B) :
  assign_apply f df s = (Ok ys, s') ->
  df <> [] /\ mapE f df s = (Ok ys, s').
Proof.
  destruct df as [|x t]; simpl; [discriminate|].
  intros H. split; [discriminate|exact H].
Qed.

Lemma assign_apply_pure_ok {A B} (f : A -> result B) (df : list A)
  (ys : list B) :
  assign_apply_pure f df = Ok ys <-> df <> [] /\ mapM f df = Ok ys.
Proof.
  destruct df as [|x t]; simpl.
  - split; [discriminate|]. intros [N _]. congruence.
  - split; [intros H; split; [discriminate|exact H]|intros [_ H]; exact H].
Qed.

Lemma load_clean_data_inv (w w' : World) (rows : list Row) :
  load_clean_data w = (Ok rows, w') ->
  exists feed images,
    files w (INPUT_DATA w) = Some (JsonBlob (Some feed))
    /\ mapE download_logos (dropna_fields feed) w = (Ok images, w')
    /\ length images = length (dropna_fields feed)
    /\ rows = dropna_image (set_image_column (dropna_fields feed) images).
Proof.
  unfold load_clean_data, bindE, load_pandas_df_from_json, lift, ret.
  destruct (files w (INPUT_DATA w)) as [[i| |[feed|]|]|] eqn:F;
    try discriminate.
  unfold select_useful_fields.
  destruct (has_column raw_symbol feed && has_column raw_shortName feed
            && has_column raw_logo_url feed)%bool; [|discriminate].
  destruct (assign_apply download_logos (dropna_fields feed) w)
    as [[images|e] w1] eqn:M; [|discriminate].
  apply assign_apply_ok in M. destruct M as [_ M].
  destruct (mapE_total download_logos (dropna_fields feed)
              download_logos_total w) as [images' [w1' [M' L]]].
  rewrite M in M'. injection M' as <- <-.
  intros H. injection H as <- <-.
  exists feed, images. repeat split; assumption.
Qed.

End BuildFacts.

(** ** Ranking *)

Module RankingFacts.
Import Signature Numpy Scipy Pandas RecommendationSystem.
Import EffFacts SortFacts SignatureSpec DistanceSpec.

Lemma get_rgb_distance_distance_to (self : System) (q : list Qc) (row : Row) :
  current_rgb self = Some q -> get_rgb_distance self row = distance_to q row.
Proof.
  intros H. unfold get_rgb_distance, distance_to. rewrite H.
  destruct (average_color row); reflexivity.
Qed.

Lemma rgb_distance_column_set (rows : list Row) (ds : list Qc) :
  length ds = length rows ->
  rgb_distance_column (set_rgb_distance_column rows ds) = Ok ds.
Proof.
  unfold rgb_distance_column, set_rgb_distance_column.
  revert ds. induction rows as [|r t IH]; intros [|d ds] H; simpl in *;
    try discriminate; [reflexivity|].
  rewrite IH by lia. reflexivity.
Qed.

Lemma nth_error_set_column (rows : list Row) (ds : list Qc) (i : nat)
  (r : Row) (d : Qc) :
  nth_error rows i = Some r -> nth_error ds i = Some d ->
  nth_error (set_rgb_distance_column rows ds) i
  = Some (set_rgb_distance r (Some d)).
Proof.
  unfold set_rgb_distance_column.
  revert ds i. induction rows as [|a t IH]; intros [|e ds] [|i] Hr Hd;
    simpl in *; try discriminate.
  - congruence.
  - apply IH; assumption.
Qed.

Lemma entry_fields_set_column (rows : list Row) (ds : list Qc) :
  length ds = length rows ->
  map entry_fields (set_rgb_distance_column rows ds) = map entry_fields rows.
Proof.
  unfold set_rgb_distance_column.
  revert ds. induction rows as [|r t IH]; intros [|d ds] H; simpl in *;
    try discriminate; [reflexivity|].
  rewrite IH by lia. reflexivity.
Qed.

Lemma in_set_column (rows : list Row) (ds : list Qc) (r' : Row) :
  In r' (set_rgb_distance_column rows ds) ->
  exists r, In r rows /\ names r' = names r.
Proof.
  unfold set_rgb_distance_column. intros H.
  apply in_map_iff in H. destruct H as [[r d] [<- H]].
  exists r. split; [eapply in_combine_l, H|reflexivity].
Qed.

Lemma row_distances_ok (q : list Qc) (rows : list Row) (ds : list Qc) :
  row_distances q rows = Ok ds
  <-> rows <> [] /\ mapM (distance_to q) rows = Ok ds.
Proof. apply (BuildFacts.assign_apply_pure_ok (distance_to q)). Qed.

(** What a call leaves in [self], by the step it stops at. *)
Lemma get_recommendation_steps (w : World) (path : string) (self : System) :
  (exists e s', get_recommendation w path self = (Raise e, s')
                /\ (s' = self
                    \/ s' = set_current_image self (Some Unloadable))
                /\ forall img, files w path <> Some (ImageBlob img))
  \/ (exists img, files w path = Some (ImageBlob img) /\
      ((exists e,
           average_color_from_histogram (histogram img) = Raise e
           /\ get_recommendation w path self
              = (Raise e,
                 set_current_histogram
                   (set_current_image self (Some (Loaded img)))
                   (Some (histogram img))))
       \/ (exists q, average_color_from_histogram (histogram img) = Ok q /\
           ((exists e,
                row_distances q (clean_data self) = Raise e
                /\ get_recommendation w path self
                   = (Raise e, remember_query self img q))
            \/ (exists ds,
                   row_distances q (clean_data self) = Ok ds
                   /\ get_recommendation w path self
                      = (closest <-
                           iloc (set_rgb_distance_column (clean_data self) ds)
                             (slice 1 6 (argsort ds)) ;;
                         scores <- rgb_distance_column closest ;;
                         Ok (map names closest, scores),
                         set_clean_data (remember_query self img q)
                           (set_rgb_distance_column (clean_data self) ds))))))).
Proof.
  unfold get_recommendation, bindE, reading, modify, lift, get, ret, Pil.open.
  destruct (files w path) as [[img| |j|]|] eqn:F; simpl;
    try (left; eexists; eexists; split; [reflexivity|];
         split; [auto|congruence]).
  right. exists img. split; [reflexivity|].
  destruct (average_color_from_histogram (histogram img)) as [q|e] eqn:S;
    simpl; [right|left; eauto].
  exists q. split; [reflexivity|].
  change (assign_apply_pure (get_rgb_distance _) (clean_data self))
    with (row_distances q (clean_data self)).
  destruct (row_distances q (clean_data self)) as [ds|e] eqn:D; simpl;
    [right|left; eauto].
  exists ds. split; [reflexivity|].
  apply row_distances_ok in D. destruct D as [_ D].
  rewrite (rgb_distance_column_set _ ds) by (eapply mapM_length, D). simpl.
  destruct (iloc _ _) as [closest|e]; simpl; [|reflexivity].
  destruct (rgb_distance_column closest); reflexivity.
Qed.

End RankingFacts.

Module RankingSpec.
Import Signature Numpy Scipy Pandas RecommendationSystem Examples.
Import EffFacts SortFacts SignatureSpec DistanceSpec RankingFacts.

Lemma signature_length (h : list Z) (q : list Qc) :
  average_color_from_histogram h = Ok q -> length q = 3%nat.
Proof.
  unfold average_color_from_histogram.
  destruct (truediv _ _); simpl; [|discriminate].
  destruct (truediv _ _); simpl; [|discriminate].
  destruct (truediv _ _); simpl; [|discriminate].
  intros H. injection H as <-. reflexivity.
Qed.

Lemma distances_exist (self : System) (q : list Qc) :
  catalog_ok self = true -> length q = 3%nat ->
  exists ds, mapM (distance_to q) (clean_data self) = Ok ds.
Proof.
  unfold catalog_ok. intros Hok Hq. apply mapM_total. intros r Hr.
  rewrite forallb_forall in Hok. specialize (Hok r Hr).
  unfold has_signature in Hok. unfold distance_to.
  destruct (image r); [|discriminate].
  destruct (average_color r) as [c|]; [|discriminate].
  apply wasserstein_distance_total.
  - intros ->. discriminate.
  - intros ->. discriminate.
Qed.

Lemma StronglySorted_map {A B} (f : A -> B) (R : B -> B -> Prop) (l : list A) :
  StronglySorted (fun a b => R (f a) (f b)) l -> StronglySorted R (map f l).
Proof.
  induction 1 as [|a l Hs IH Ha]; simpl; constructor; [exact IH|].
  apply Forall_map. exact Ha.
Qed.

Lemma in_combine_seq {B} (ds : list B) (a n i : nat) (d : B) :
  In (i, d) (combine (seq a n) ds) ->
  (a <= i < a + n)%nat /\ nth_error ds (i - a) = Some d.
Proof.
  revert a ds. induction n as [|n IH]; intros a [|e ds] H; simpl in H;
    try contradiction.
  destruct H as [H|H].
  - injection H as <- <-. split; [lia|]. rewrite Nat.sub_diag. reflexivity.
  - apply IH in H. destruct H as [Hi Hd]. split; [lia|].
    replace (i - a)%nat with (S (i - S a)) by lia. exact Hd.
Qed.

Lemma combine_seq_nth {A B} (r0 : A) (pre rows : list A) (ds : list B) :
  map (fun p => (nth (fst p) (pre ++ rows) r0, snd p))
    (combine (seq (length pre) (length rows)) ds)
  = combine rows ds.
Proof.
  revert pre ds. induction rows as [|a t IH]; intros pre [|d ds]; simpl;
    try reflexivity.
  rewrite nth_middle. f_equal.
  specialize (IH (pre ++ [a]) ds).
  rewrite <- app_assoc, length_app in IH. simpl in IH.
  rewrite Nat.add_1_r in IH. exact IH.
Qed.

Lemma firstn_skipn_split {A} (l : list A) (k : nat) :
  (S k <= length l)%nat ->
  exists c picked rest,
    l = c :: picked ++ rest /\ length picked = k
    /\ slice 1 (S k) l = picked.
Proof.
  intros H. destruct l as [|c t]; simpl in H; [lia|].
  exists c, (firstn k t), (skipn k t). split.
  - rewrite firstn_skipn. reflexivity.
  - split; [apply firstn_length_le; lia|].
    unfold slice. simpl. rewrite Nat.sub_0_r. reflexivity.
Qed.

Lemma slice_map {A B} (f : A -> B) (lo hi : nat) (l : list A) :
  slice lo hi (map f l) = map f (slice lo hi l).
Proof. unfold slice. rewrite skipn_map, firstn_map. reflexivity. Qed.

Lemma names_set_rgb_distance (r : Row) (d : option Qc) :
  names (set_rgb_distance r d) = names r.
Proof. reflexivity. Qed.

(** The rows [iloc] selects and the scores read off them, for positions
    that come out of the sort of the distance column. *)
Lemma select_closest (rows : list Row) (ds : list Qc) (r0 : Row)
  (picked : list (nat * Qc)) :
  length ds = length rows ->
  (forall p, In p picked -> In p (combine (seq 0 (length ds)) ds)) ->
  (closest <- iloc (set_rgb_distance_column rows ds) (map fst picked) ;;
   scores <- rgb_distance_column closest ;;
   Ok (map names closest, scores))
  = Ok (map (fun p => names (nth (fst p) rows r0)) picked, map snd picked).
Proof.
  intros Hlen Hin. unfold iloc. rewrite mapM_map.
  rewrite (mapM_ok_map _
             (fun p => set_rgb_distance (nth (fst p) rows r0) (Some (snd p)))).
  - simpl. unfold rgb_distance_column. rewrite mapM_map.
    rewrite (mapM_ok_map _ snd) by reflexivity.
    simpl. rewrite map_map. reflexivity.
  - intros [i d] Hp. simpl.
    apply Hin, in_combine_seq in Hp. destruct Hp as [Hi Hd].
    rewrite Nat.sub_0_r in Hd.
    rewrite (nth_error_set_column rows ds i (nth i rows r0) d);
      [reflexivity| |exact Hd].
    apply nth_error_nth'. lia.
Qed.

Lemma StronglySorted_app_l {A} (R : A -> A -> Prop) (l1 l2 : list A) :
  StronglySorted R (l1 ++ l2) -> StronglySorted R l1.
Proof.
  induction l1 as [|a t IH]; simpl; intros H; [constructor|].
  inversion H as [|? ? Ht Ha]; subst. constructor; [apply IH, Ht|].
  apply Forall_app in Ha. apply Ha.
Qed.

Lemma sorted_pairs_length (ds : list Qc) :
  length (sort_by snd (combine (seq 0 (length ds)) ds)) = length ds.
Proof.
  rewrite sort_by_length, length_combine, length_seq. apply Nat.min_id.
Qed.

(** The outcome of a call on a built catalog, for a query that opens and
    has a signature. *)
Lemma get_recommendation_ranked (w : World) (path : string) (self : System)
  (img : Image) (q : list Qc) :
  catalog_ok self = true ->
  clean_data self <> [] ->
  files w path = Some (ImageBlob img) ->
  average_color_from_histogram (histogram img) = Ok q ->
  exists ds,
    mapM (distance_to q) (clean_data self) = Ok ds
    /\ length ds = length (clean_data self)
    /\ fst (get_recommendation w path self)
       = (closest <-
            iloc (set_rgb_distance_column (clean_data self) ds)
              (slice 1 6 (argsort ds)) ;;
          scores <- rgb_distance_column closest ;;
          Ok (map names closest, scores)).
Proof.
  intros Hok Hne F S.
  destruct (distances_exist self q Hok (signature_length _ _ S)) as [ds D].
  exists ds. split; [exact D|]. split; [eapply mapM_length, D|].
  assert (D0 : row_distances q (clean_data self) = Ok ds).
  { apply row_distances_ok. split; assumption. }
  destruct (get_recommendation_steps w path self)
    as [[e [s' [_ [_ Hno]]]]|[img' [F' Hsteps]]].
  - exfalso. eapply Hno, F.
  - rewrite F in F'. injection F' as <-.
    destruct Hsteps as [[e [S' _]]|[q' [S' Hd]]]; [congruence|].
    rewrite S in S'. injection S' as <-.
    destruct Hd as [[e [D' _]]|[ds' [D' G]]]; [congruence|].
    rewrite D0 in D'. injection D' as <-.
    rewrite G. reflexivity.
Qed.

(** C1, as the code has it.  On a built catalog of six entries or more,
    for a query with a signature: the distance to every entry is computed,
    the entries are sorted ascending by distance, the first of the sorted
    entries (a closest one) is dropped, and the five that follow are
    returned with their distances, in ascending order; two of them may lie
    at the same distance, so the order need not be strict. *)
Theorem recommendation_is_next_five_by_distance
  (w : World) (path : string) (self : System) (img : Image) (q : list Qc) :
  catalog_ok self = true ->
  (6 <= length (clean_data self))%nat ->
  files w path = Some (ImageBlob img) ->
  average_color_from_histogram (histogram img) = Ok q ->
  exists (ds : list Qc) (ranked : list (Row * Qc)) closest picked rest,
    Forall2 (fun r d => distance_to q r = Ok d) (clean_data self) ds
    /\ Permutation ranked (combine (clean_data self) ds)
    /\ StronglySorted (fun a b => (snd a <= snd b)%Qc) ranked
    /\ ranked = closest :: picked ++ rest
    /\ length picked = 5%nat
    /\ fst (get_recommendation w path self)
       = Ok (map (fun p => names (fst p)) picked, map snd picked)
    /\ StronglySorted Qcle (map snd picked).
Proof.
  intros Hok Hn F S.
  assert (Hne : clean_data self <> []).
  { intros E. rewrite E in Hn. simpl in Hn. lia. }
  destruct (get_recommendation_ranked w path self img q Hok Hne F S)
    as [ds [D [Hlen G]]].
  pose proof (sort_by_sorted snd (combine (seq 0 (length ds)) ds)) as Hsorted.
  pose proof (sort_by_perm snd (combine (seq 0 (length ds)) ds)) as Hperm.
  pose proof (sorted_pairs_length ds) as Hsp.
  unfold argsort in G. rewrite slice_map in G.
  set (sp := sort_by snd (combine (seq 0 (length ds)) ds)) in *.
  destruct (firstn_skipn_split sp 5) as [c [picked [rest [Esp [Lp Sl]]]]];
    [lia|].
  rewrite Sl in G.
  assert (Hr0 : exists r0 : Row, In r0 (clean_data self)).
  { destruct (clean_data self) as [|r0 t]; [simpl in Hn; lia|].
    exists r0. left. reflexivity. }
  destruct Hr0 as [r0 _].
  set (f := fun p : nat * Qc => (nth (fst p) (clean_data self) r0, snd p)).
  assert (Hpicked : StronglySorted (key_le snd) picked).
  { rewrite Esp in Hsorted. inversion Hsorted as [|? ? Ht _]; subst.
    eapply StronglySorted_app_l, Ht. }
  exists ds, (map f sp), (f c), (map f picked), (map f rest).
  split; [apply mapM_Forall2, D|].
  split.
  { rewrite <- (combine_seq_nth r0 [] (clean_data self) ds).
    simpl length. rewrite <- Hlen. apply Permutation_map, Hperm. }
  split; [apply StronglySorted_map; exact Hsorted|].
  split; [rewrite Esp; simpl; rewrite map_app; reflexivity|].
  split; [rewrite length_map; exact Lp|].
  split.
  - rewrite G.
    rewrite (select_closest (clean_data self) ds r0 picked Hlen).
    + rewrite !map_map. reflexivity.
    + intros p Hp. eapply Permutation_in; [exact Hperm|].
      rewrite Esp. right. apply in_or_app. left. exact Hp.
  - rewrite map_map. apply StronglySorted_map. exact Hpicked.
Qed.

Lemma recommendation_is_next_five_by_distance_witness :
  exists (ds : list Qc) (ranked : list (Row * Qc)) closest picked rest,
    Forall2 (fun r d => distance_to query_signature r = Ok d)
      (clean_data (built market)) ds
    /\ Permutation ranked (combine (clean_data (built market)) ds)
    /\ StronglySorted (fun a b => (snd a <= snd b)%Qc) ranked
    /\ ranked = closest :: picked ++ rest
    /\ length picked = 5%nat
    /\ fst (get_recommendation (after_build market) query_path (built market))
       = Ok (map (fun p => names (fst p)) picked, map snd picked)
    /\ StronglySorted Qcle (map snd picked).
Proof.
  apply (recommendation_is_next_five_by_distance
           (after_build market) query_path (built market)
           query_image query_signature).
  - vm_compute. reflexivity.
  - apply Nat.leb_le. vm_compute. reflexivity.
  - vm_compute. reflexivity.
  - vm_compute. reflexivity.
Defined.

(** C1 as the claim words it fails: in [market] the logos of B and C have
    one colour, both are returned, and their two distances are equal. *)
Lemma recommendation_order_not_strict :
  fst (__init__ market) = Ok (built market)
  /\ (6 <= length (clean_data (built market)))%nat
  /\ fst (get_recommendation (after_build market) query_path (built market))
     = Ok (recommended (after_build market) query_path (built market))
  /\ fst (recommended (after_build market) query_path (built market))
     = [("B", "Beta"); ("C", "Gamma"); ("G", "Eta"); ("E", "Epsilon");
        ("D", "Delta")]%string
  /\ ~ StronglySorted Qclt
        (snd (recommended (after_build market) query_path (built market))).
Proof.
  split; [vm_compute; reflexivity|].
  split; [apply Nat.leb_le; vm_compute; reflexivity|].
  split; [vm_compute; reflexivity|].
  split; [vm_compute; reflexivity|].
  intros H.
  remember (snd (recommended (after_build market) query_path (built market)))
    as scores eqn:E.
  vm_compute in E. subst scores.
  inversion H as [|? ? _ Hall]; subst.
  inversion Hall as [|? ? Hlt _]; subst.
  vm_compute in Hlt. discriminate Hlt.
Qed.

(** C8. With a catalog of exactly one entry, a query that has a signature
    is answered by two empty lists and nothing is raised. *)
Theorem single_entry_catalog_recommends_nothing
  (w : World) (path : string) (self : System) (img : Image) (q : list Qc) :
  catalog_ok self = true ->
  length (clean_data self) = 1%nat ->
  files w path = Some (ImageBlob img) ->
  average_color_from_histogram (histogram img) = Ok q ->
  fst (get_recommendation w path self) = Ok ([], []).
Proof.
  intros Hok Hn F S.
  assert (Hne : clean_data self <> []).
  { intros E. rewrite E in Hn. discriminate Hn. }
  destruct (get_recommendation_ranked w path self img q Hok Hne F S)
    as [ds [D [Hlen G]]].
  rewrite G. rewrite Hn in Hlen.
  destruct ds as [|d [|d' ds]]; try discriminate. reflexivity.
Qed.

Lemma single_entry_catalog_recommends_nothing_witness :
  length (clean_data (built lonely)) = 1%nat
  /\ fst (get_recommendation (after_build lonely) query_path (built lonely))
     = Ok ([], []).
Proof.
  split; [vm_compute; reflexivity|].
  apply (single_entry_catalog_recommends_nothing
           (after_build lonely) query_path (built lonely)
           query_image query_signature).
  - vm_compute. reflexivity.
  - vm_compute. reflexivity.
  - vm_compute. reflexivity.
  - vm_compute. reflexivity.
Defined.

(** C4, as the code has it.  Whatever a call does, also when it raises, it
    leaves the symbol-to-position mapping, the order of the entries and, in
    every entry, the key, the symbol, the display name, the logo url, the
    image and the signature as they were. *)
Theorem recommendation_keeps_catalog_entries
  (w : World) (path : string) (self : System) :
  indices (snd (get_recommendation w path self)) = indices self
  /\ map entry_fields (clean_data (snd (get_recommendation w path self)))
     = map entry_fields (clean_data self).
Proof.
  destruct (get_recommendation_steps w path self)
    as [[e [s' [G [[-> | ->] _]]]]
       |[img [_ [[e [_ G]]|[q [_ [[e [_ G]]|[ds [D G]]]]]]]]];
    rewrite G; simpl; try (split; reflexivity).
  split; [reflexivity|].
  apply row_distances_ok in D. destruct D as [_ D].
  apply entry_fields_set_column. eapply mapM_length, D.
Qed.

(** C4 as the claim words it fails: a call assigns [self.current_rgb] and
    writes the column [rgb_distance] of the catalog rows. *)
Lemma recommendation_changes_the_system :
  fst (__init__ market) = Ok (built market)
  /\ snd (get_recommendation (after_build market) query_path (built market))
     <> built market
  /\ current_rgb (built market) = None
  /\ current_rgb
       (snd (get_recommendation (after_build market) query_path (built market)))
     <> None
  /\ map rgb_distance (clean_data (built market)) = repeat None 7
  /\ map rgb_distance
       (clean_data
          (snd (get_recommendation (after_build market) query_path
                  (built market))))
     <> map rgb_distance (clean_data (built market)).
Proof.
  assert (C : current_rgb
                (snd (get_recommendation (after_build market) query_path
                        (built market))) <> None).
  { intros H. vm_compute in H. discriminate H. }
  split; [vm_compute; reflexivity|].
  split.
  { intros H. apply C. rewrite H. vm_compute. reflexivity. }
  split; [vm_compute; reflexivity|].
  split; [exact C|].
  split; [vm_compute; reflexivity|].
  intros H. vm_compute in H. discriminate H.
Qed.

End RankingSpec.

(** ** The catalog build *)

Module BuildSpec.
Import Signature Numpy Scipy Pandas RecommendationSystem Examples.
Import MoreExamples.
Import EffFacts SignatureSpec BuildFacts RankingFacts.

Lemma init_inv (w w' : World) (self : System) :
  __init__ w = (Ok self, w') ->
  exists rows colors,
    load_clean_data w = (Ok rows, w')
    /\ mapM average_image_color rows = Ok colors
    /\ clean_data self = set_average_color_column rows colors
    /\ indices self
       = drop_duplicates (combine (map symbol rows) (seq 0 (length rows))).
Proof.
  unfold __init__, bindE, lift, ret.
  destruct (load_clean_data w) as [[rows|e] w1]; [|discriminate].
  destruct (assign_apply_pure average_image_color rows) as [colors|e] eqn:M;
    [|discriminate].
  apply assign_apply_pure_ok in M. destruct M as [_ M].
  intros H. injection H as <- <-. exists rows, colors.
  repeat split; [exact M].
Qed.

(** A build that succeeds has rows. *)
Lemma init_nonempty (w w' : World) (self : System) :
  __init__ w = (Ok self, w') -> clean_data self <> [].
Proof.
  unfold __init__, bindE, lift, ret.
  destruct (load_clean_data w) as [[rows|e] w1]; [|discriminate].
  destruct (assign_apply_pure average_image_color rows) as [colors|e] eqn:M;
    [|discriminate].
  apply assign_apply_pure_ok in M. destruct M as [N M].
  intros H. injection H as <- <-. simpl.
  apply mapM_length in M. unfold set_average_color_column.
  destruct rows as [|r t]; [congruence|].
  destruct colors as [|c u]; [discriminate M|]. discriminate.
Qed.

Lemma init_raise (w w' : World) (rows : list Row) (e : exn) :
  load_clean_data w = (Ok rows, w') ->
  mapM average_image_color rows = Raise e ->
  __init__ w = (Raise e, w').
Proof.
  intros L M. unfold __init__, bindE, lift. rewrite L.
  destruct rows as [|r t]; [discriminate M|].
  unfold assign_apply_pure. rewrite M. reflexivity.
Qed.

(** No row left after the two [dropna()]: the column of the signatures
    cannot be assigned. *)
Lemma init_raise_empty (w w' : World) :
  load_clean_data w = (Ok [], w') ->
  __init__ w = (Raise ValueError, w').
Proof.
  intros L. unfold __init__, bindE, lift. rewrite L. reflexivity.
Qed.

Lemma loaded_rows_have_image (w w' : World) (rows : list Row) :
  load_clean_data w = (Ok rows, w') ->
  forall r, In r rows -> has_image r = true.
Proof.
  intros L r Hr. apply load_clean_data_inv in L.
  destruct L as [feed [images [_ [_ [_ ->]]]]].
  unfold dropna_image in Hr. apply filter_In in Hr. apply Hr.
Qed.

Lemma average_image_color_cases (r : Row) :
  has_image r = true ->
  (image r = Some Unloadable /\ average_image_color r = Raise OSError)
  \/ (degenerate_row r = true /\ average_image_color r = Raise ZeroDivisionError)
  \/ (degenerate_row r = false
      /\ (exists img, image r = Some (Loaded img))
      /\ exists x0 x1 x2, average_image_color r = Ok [x0; x1; x2]).
Proof.
  unfold has_image, degenerate_row, average_image_color.
  destruct (image r) as [[img|]|]; [intros _|intros _|discriminate].
  - right. simpl. destruct (degenerate (histogram img)) eqn:D.
    + left. split; [reflexivity|]. apply signature_zero_total, D.
    + right. split; [reflexivity|]. split; [eauto|].
      apply signature_nonzero_total, D.
  - left. split; reflexivity.
Qed.

Lemma set_average_color_column_ok (rows : list Row) (colors : list (list Qc)) :
  Forall2 (fun r c => average_image_color r = Ok c) rows colors ->
  (forall r, In r rows -> has_image r = true) ->
  forallb has_signature (set_average_color_column rows colors) = true.
Proof.
  unfold set_average_color_column.
  induction 1 as [|r c rows colors Hr _ IH]; intros Himg; [reflexivity|].
  simpl. rewrite IH by (intros x Hx; apply Himg; right; exact Hx).
  rewrite andb_true_r.
  assert (Hi : has_image r = true) by (apply Himg; left; reflexivity).
  destruct (average_image_color_cases r Hi)
    as [[_ E]|[[_ E]|[_ [_ [x0 [x1 [x2 E]]]]]]]; [congruence|congruence|].
  rewrite Hr in E. injection E as ->.
  unfold has_signature, has_image in *. simpl.
  destruct (image r); [reflexivity|discriminate].
Qed.

(** A build that succeeds leaves a logo and a signature of three
    components in every row. *)
Lemma init_catalog_ok (w w' : World) (self : System) :
  __init__ w = (Ok self, w') -> catalog_ok self = true.
Proof.
  intros I. destruct (init_inv _ _ _ I) as [rows [colors [L [M [C _]]]]].
  unfold catalog_ok. rewrite C.
  apply set_average_color_column_ok; [apply mapM_Forall2, M|].
  eapply loaded_rows_have_image, L.
Qed.

(** On positions that are all different, [drop_duplicates] drops nothing. *)
Lemma drop_duplicates_seen_positions {K} (keys : list K) (a n : nat)
  (seen : list nat) :
  (forall v, In v seen -> (v < a)%nat) ->
  drop_duplicates_seen seen (combine keys (seq a n)) = combine keys (seq a n).
Proof.
  revert a n seen. induction keys as [|k t IH]; intros a [|n] seen Hs;
    simpl; try reflexivity.
  destruct (existsb (Nat.eqb a) seen) eqn:E.
  - apply existsb_exists in E. destruct E as [v [Hv Ev]].
    apply Nat.eqb_eq in Ev. subst v. apply Hs in Hv. lia.
  - f_equal. apply IH. intros v [<-|Hv]; [lia|].
    apply Hs in Hv. lia.
Qed.

Lemma indices_are_all_positions (w w' : World) (self : System) :
  __init__ w = (Ok self, w') ->
  exists rows,
    load_clean_data w = (Ok rows, w')
    /\ indices self = combine (map symbol rows) (seq 0 (length rows)).
Proof.
  intros I. destruct (init_inv _ _ _ I) as [rows [colors [L [_ [_ X]]]]].
  exists rows. split; [exact L|]. rewrite X.
  apply drop_duplicates_seen_positions. intros v [].
Qed.

(** C3 on the code.  In [twins] two records carry the symbol AAA; the
    build keeps both rows, and the symbol-to-position mapping holds the
    label AAA twice, for the positions 0 and 1. *)
Theorem indices_keep_duplicate_symbols :
  fst (__init__ twins) = Ok (built twins)
  /\ map index (clean_data (built twins)) = ["AAA"; "AAA.X"; "CCC"]%string
  /\ map symbol (clean_data (built twins)) = ["AAA"; "AAA"; "CCC"]%string
  /\ indices (built twins)
     = [("AAA", 0); ("AAA", 1); ("CCC", 2)]%string%nat.
Proof.
  split; [vm_compute; reflexivity|].
  split; [vm_compute; reflexivity|].
  split; vm_compute; reflexivity.
Qed.

(** A row with a zero channel total that reaches the signature step ends
    the build with an exception: [ZeroDivisionError], or the [OSError] of a
    row whose cached logo does not load; [ZeroDivisionError] when every
    logo loads. *)
Lemma init_raises_on_zero_channel_total (w w' : World) (rows : list Row) :
  load_clean_data w = (Ok rows, w') ->
  existsb degenerate_row rows = true ->
  (exists e, __init__ w = (Raise e, w')
             /\ (e = ZeroDivisionError \/ e = OSError))
  /\ ((forall r, In r rows -> image r <> Some Unloadable) ->
      __init__ w = (Raise ZeroDivisionError, w')).
Proof.
  intros L D. apply existsb_exists in D. destruct D as [r [Hr Dr]].
  assert (Er : average_image_color r = Raise ZeroDivisionError).
  { destruct (average_image_color_cases r
                (loaded_rows_have_image _ _ _ L r Hr))
      as [[U _]|[[_ E]|[E _]]]; [|exact E|congruence].
    unfold degenerate_row in Dr. rewrite U in Dr. discriminate Dr. }
  split.
  - destruct (mapM_raises average_image_color rows) as [x [e [Hx [Ex M]]]];
      [eauto|].
    exists e. split; [apply (init_raise w w' rows _ L), M|].
    destruct (average_image_color_cases x
                (loaded_rows_have_image _ _ _ L x Hx))
      as [[_ E]|[[_ E]|[_ [_ [x0 [x1 [x2 E]]]]]]]; [right|left|]; congruence.
  - intros Hload. apply (init_raise w w' rows _ L).
    apply mapM_raise; [|eauto].
    intros x Hx.
    destruct (average_image_color_cases x
                (loaded_rows_have_image _ _ _ L x Hx))
      as [[U _]|[[_ E]|[_ [_ [x0 [x1 [x2 E]]]]]]];
      [exfalso; eapply Hload; eauto|right; exact E|left; eauto].
Qed.

(** C5, as the code has it.  A histogram with a channel whose bucket
    counts add up to zero makes the signature raise [ZeroDivisionError]: no
    value, hence no NaN, is returned, and the operation does not catch the
    exception.  When the query image has such a histogram,
    [get_recommendation] ends with that exception, which goes to its
    caller; [self] then holds the image and its histogram and no
    signature. *)
Theorem zero_channel_total_raises :
  (forall h : list Z,
      degenerate h = true ->
      average_color_from_histogram h = Raise ZeroDivisionError)
  /\ (forall (w : World) (path : string) (self : System) (img : Image),
         files w path = Some (ImageBlob img) ->
         degenerate (histogram img) = true ->
         get_recommendation w path self
         = (Raise ZeroDivisionError,
            set_current_histogram
              (set_current_image self (Some (Loaded img)))
              (Some (histogram img)))).
Proof.
  split; [exact signature_zero_total|].
  intros w path self img F D.
  apply signature_zero_total in D.
  destruct (get_recommendation_steps w path self)
    as [[e [s' [_ [_ Hno]]]]|[img' [F' Hsteps]]].
  - exfalso. eapply Hno, F.
  - rewrite F in F'. injection F' as <-.
    destruct Hsteps as [[e [S G]]|[q [S _]]]; [|congruence].
    rewrite G. congruence.
Qed.

Lemma zero_channel_total_raises_witness :
  average_color_from_histogram (histogram (grey_image 7))
  = Raise ZeroDivisionError
  /\ fst (get_recommendation with_grey_logo grey_query_path empty_system)
     = Raise ZeroDivisionError.
Proof.
  destruct zero_channel_total_raises as [T1 T2].
  split; [apply T1; vm_compute; reflexivity|].
  rewrite (T2 with_grey_logo grey_query_path empty_system (grey_image 7)).
  - reflexivity.
  - vm_compute. reflexivity.
  - vm_compute. reflexivity.
Defined.

(** C5 as the claim words it fails: in [with_grey_logo] the logo of B is
    a single-band image, its row reaches the signature step, and the build
    is not continued without it: [__init__] raises and builds nothing. *)
Lemma grey_logo_aborts_the_build :
  average_color_from_histogram (histogram (grey_image 128))
  = Raise ZeroDivisionError
  /\ fst (load_clean_data with_grey_logo) = Ok (loaded with_grey_logo)
  /\ map index (loaded with_grey_logo) = ["A"; "B"]%string
  /\ map degenerate_row (loaded with_grey_logo) = [false; true]
  /\ fst (__init__ with_grey_logo) = Raise ZeroDivisionError
  /\ ~ (exists self w', __init__ with_grey_logo = (Ok self, w')).
Proof.
  assert (R : fst (__init__ with_grey_logo) = Raise ZeroDivisionError)
    by (vm_compute; reflexivity).
  split; [vm_compute; reflexivity|].
  split; [vm_compute; reflexivity|].
  split; [vm_compute; reflexivity|].
  split; [vm_compute; reflexivity|].
  split; [exact R|].
  intros [self [w' H]]. rewrite H in R. simpl in R. discriminate R.
Qed.

Lemma dropna_fields_complete (feed : list (string * RawRecord)) (c : Row) :
  In c (dropna_fields feed) -> complete_in feed c.
Proof.
  unfold dropna_fields, complete_in. intros H.
  apply in_flat_map in H. destruct H as [[k raw] [Hk Hc]]. simpl in Hc.
  destruct (raw_symbol raw) as [| |s] eqn:Es; try contradiction.
  destruct (raw_shortName raw) as [| |n] eqn:En; try contradiction.
  destruct (raw_logo_url raw) as [| |u] eqn:Eu; try contradiction.
  destruct Hc as [<-|[]]. simpl. exists raw. repeat split; assumption.
Qed.

Lemma Forall2_in_combine {A B} (P : A -> B -> Prop) (l1 : list A)
  (l2 : list B) (a : A) (b : B) :
  Forall2 P l1 l2 -> In (a, b) (combine l1 l2) -> P a b.
Proof.
  induction 1 as [|x y l1 l2 Hxy _ IH]; simpl; [contradiction|].
  intros [E|H]; [injection E as <- <-; exact Hxy|apply IH, H].
Qed.

(** The rows that survive the two [dropna()]. *)
Lemma loaded_rows_complete (w w' : World) (rows : list Row)
  (feed : list (string * RawRecord)) :
  files w (INPUT_DATA w) = Some (JsonBlob (Some feed)) ->
  load_clean_data w = (Ok rows, w') ->
  forall r, In r rows -> complete_in feed r /\ logo_url r <> ""%string.
Proof.
  intros F L r Hr. apply load_clean_data_inv in L.
  destruct L as [feed' [images [F' [M [_ ->]]]]].
  rewrite F in F'. injection F' as <-.
  rewrite dropna_image_kept in Hr. apply in_flat_map in Hr.
  destruct Hr as [[c [img|]] [Hc Hr]]; simpl in Hr; [|contradiction].
  destruct Hr as [<-|[]].
  split.
  - apply in_combine_l in Hc. apply dropna_fields_complete in Hc.
    exact Hc.
  - apply mapE_Forall2 in M.
    destruct (Forall2_in_combine _ _ _ _ _ M Hc) as [s1 [s2 D]].
    apply download_logos_some_url in D. exact D.
Qed.

Lemma iloc_in {R} (df : list R) (ps : list nat) (out : list R) :
  iloc df ps = Ok out -> forall r, In r out -> In r df.
Proof.
  unfold iloc. intros H. apply mapM_Forall2 in H.
  induction H as [|i r ps out Hi _ IH]; intros x Hx; [contradiction|].
  destruct Hx as [<-|Hx]; [|apply IH, Hx].
  destruct (nth_error df i) as [y|] eqn:E; [|discriminate].
  injection Hi as <-. eapply nth_error_In, E.
Qed.

(** What a recommendation returns is taken from the catalog rows. *)
Lemma recommended_from_catalog (w : World) (path : string)
  (self self' : System) (out : list (string * string) * list Qc) :
  get_recommendation w path self = (Ok out, self') ->
  forall p, In p (fst out) ->
  exists r, In r (clean_data self) /\ p = names r.
Proof.
  intros G p Hp.
  destruct (get_recommendation_steps w path self)
    as [[e [s' [G' _]]]
       |[img [_ [[e [_ G']]|[q [_ [[e [_ G']]|[ds [D G']]]]]]]]];
    rewrite G' in G; try discriminate.
  destruct (iloc _ _) as [closest|e] eqn:I; simpl in G; [|discriminate].
  destruct (rgb_distance_column closest) as [scores|e]; simpl in G;
    [|discriminate].
  injection G as <- _. simpl in Hp.
  apply in_map_iff in Hp. destruct Hp as [r' [<- Hr']].
  apply (iloc_in _ _ _ I) in Hr'. apply in_set_column in Hr'.
  destruct Hr' as [r [Hr E]]. exists r. split; [exact Hr|exact E].
Qed.

Lemma dropna_fields_keeps (feed : list (string * RawRecord))
  (k : string) (raw : RawRecord) (s n u : string) :
  In (k, raw) feed ->
  raw_symbol raw = Str s -> raw_shortName raw = Str n ->
  raw_logo_url raw = Str u ->
  In {| index := k; symbol := s; shortName := n; logo_url := u;
        image := None; average_color := None; rgb_distance := None |}
     (dropna_fields feed).
Proof.
  intros H Es En Eu. unfold dropna_fields. apply in_flat_map.
  exists (k, raw). split; [exact H|]. simpl. rewrite Es, En, Eu.
  left. reflexivity.
Qed.

(** C6, as the code has it.  The first [dropna()] removes every record
    in which one of the three fields is absent or null, and no other
    record: [download_logos] runs on exactly the records that have their
    three fields; when there is none, the column of the images cannot be
    assigned and the build ends with [ValueError].  A record whose
    [logo_url] is the empty string passes that filter: [download_logos] is
    called on it, logs its line and returns [None], whatever the files and
    the network hold and without writing a file, and the second [dropna()]
    removes the record.  Every row of a built catalog, and every pair a
    recommendation returns, therefore stems from a record that has its
    three fields and a non-empty [logo_url]. *)
Theorem missing_fields_are_filtered
  (w : World) (feed : list (string * RawRecord)) :
  files w (INPUT_DATA w) = Some (JsonBlob (Some feed)) ->
  (fst (load_clean_data w) = Raise KeyError
   \/ (dropna_fields feed = []
       /\ load_clean_data w = (Raise ValueError, w))
   \/ (dropna_fields feed <> []
       /\ load_clean_data w
          = (images <-- mapE download_logos (dropna_fields feed) ;;
             ret (dropna_image
                    (set_image_column (dropna_fields feed) images))) w))
  /\ (forall c, In c (dropna_fields feed) -> complete_in feed c)
  /\ (forall k raw s n u,
         In (k, raw) feed ->
         raw_symbol raw = Str s -> raw_shortName raw = Str n ->
         raw_logo_url raw = Str u ->
         In {| index := k; symbol := s; shortName := n; logo_url := u;
               image := None; average_color := None; rgb_distance := None |}
            (dropna_fields feed))
  /\ (forall c w1,
         logo_url c = ""%string ->
         download_logos c w1 = (Ok None, logged w1 c)
         /\ files (logged w1 c) = files w1)
  /\ (forall self w',
         __init__ w = (Ok self, w') ->
         forall r, In r (clean_data self) ->
                   complete_in feed r /\ logo_url r <> ""%string)
  /\ (forall self w' w2 path out self',
         __init__ w = (Ok self, w') ->
         get_recommendation w2 path self = (Ok out, self') ->
         forall p, In p (fst out) ->
                   exists r, In r (clean_data self)
                             /\ complete_in feed r
                             /\ logo_url r <> ""%string
                             /\ p = names r).
Proof.
  intros F.
  assert (Hcat : forall self w',
             __init__ w = (Ok self, w') ->
             forall r, In r (clean_data self) ->
                       complete_in feed r /\ logo_url r <> ""%string).
  { intros self w' I r Hr.
    destruct (init_inv _ _ _ I) as [rows [colors [L [_ [C _]]]]].
    rewrite C in Hr. unfold set_average_color_column in Hr.
    apply in_map_iff in Hr. destruct Hr as [[r0 c] [<- Hr0]].
    apply in_combine_l in Hr0.
    exact (loaded_rows_complete w w' rows feed F L r0 Hr0). }
  split.
  { unfold load_clean_data, bindE, load_pandas_df_from_json, lift.
    rewrite F. unfold select_useful_fields.
    destruct (has_column raw_symbol feed && has_column raw_shortName feed
              && has_column raw_logo_url feed)%bool;
      [right|left; reflexivity].
    destruct (dropna_fields feed) as [|c t] eqn:E;
      [left; split; reflexivity|right].
    split; [discriminate|reflexivity]. }
  split; [apply dropna_fields_complete|].
  split; [apply dropna_fields_keeps|].
  split.
  { intros c w1 E. rewrite (download_logos_empty_url c w1 E).
    split; reflexivity. }
  split; [exact Hcat|].
  intros self w' w2 path out self' I G p Hp.
  destruct (recommended_from_catalog _ _ _ _ _ G p Hp) as [r [Hr E]].
  exists r. destruct (Hcat self w' I r Hr) as [Hc Hu]. auto.
Qed.

Lemma missing_fields_are_filtered_witness :
  files with_empty_fields (INPUT_DATA with_empty_fields)
  = Some (JsonBlob (Some empty_fields_feed))
  /\ In row_without_url (dropna_fields empty_fields_feed)
  /\ fst (download_logos row_without_url with_empty_fields) = Ok None
  /\ (forall r, In r (clean_data (built with_empty_fields)) ->
                complete_in empty_fields_feed r /\ logo_url r <> ""%string).
Proof.
  split; [reflexivity|].
  destruct (missing_fields_are_filtered with_empty_fields empty_fields_feed
              eq_refl) as [_ [_ [Kept [Empty_url [Catalog _]]]]].
  split.
  { apply (Kept "D"%string (record "D" "Delta" "") "D"%string
             "Delta"%string ""%string); [|reflexivity..].
    simpl. auto. }
  split.
  { rewrite (proj1 (Empty_url row_without_url with_empty_fields eq_refl)).
    reflexivity. }
  apply (Catalog (built with_empty_fields) (after_build with_empty_fields)).
  vm_compute. reflexivity.
Defined.

(** C6 as the claim words it fails.  In the feed [empty_fields_feed] the
    display name of B and the symbol of C are empty and the url of D is
    empty: all three reach [download_logos].  The logo of C is there on
    the network; C is dropped because its cache path, [.png], has no
    extension to save under.  B is a row of the catalog and is
    recommended. *)
Lemma empty_fields_reach_the_catalog :
  map index (dropna_fields empty_fields_feed) = ["A"; "B"; "C"; "D"]%string
  /\ web with_empty_fields (fetch_url row_without_symbol)
     = Some (ImageBlob (rgb_image 0 0 0))
  /\ cache_location with_empty_fields row_without_symbol
     = "/app/static/logo_cache/.png"%string
  /\ Pil.has_format (cache_location with_empty_fields row_without_symbol)
     = false
  /\ fst (__init__ with_empty_fields) = Ok (built with_empty_fields)
  /\ map names (clean_data (built with_empty_fields))
     = [("A", "Alpha"); ("B", "")]%string
  /\ fst (get_recommendation (after_build with_empty_fields) query_path
            (built with_empty_fields))
     = Ok (recommended (after_build with_empty_fields) query_path
             (built with_empty_fields))
  /\ fst (recommended (after_build with_empty_fields) query_path
            (built with_empty_fields))
     = [("B", "")]%string.
Proof.
  split; [vm_compute; reflexivity|].
  split; [vm_compute; reflexivity|].
  split; [vm_compute; reflexivity|].
  split; [vm_compute; reflexivity|].
  split; [vm_compute; reflexivity|].
  split; [vm_compute; reflexivity|].
  split; vm_compute; reflexivity.
Qed.




End BuildSpec.

(** ** More on the colour signature *)

Module SignatureExtra.
Import Signature SignatureFacts Examples.

Lemma big_sum_nonneg (f : nat -> Z) (n : nat) :
  (forall i, (i < n)%nat -> 0 <= f i) -> 0 <= big_sum f n.
Proof.
  intros H. unfold big_sum.
  assert (G : forall l, (forall i, In i l -> 0 <= f i) ->
                        0 <= fold_right Z.add 0 (map f l)).
  { induction l as [|i t IH]; intros Hl; simpl; [lia|].
    specialize (Hl i (or_introl eq_refl)) as Hi.
    specialize (IH (fun j Hj => Hl j (or_intror Hj))). lia. }
  apply G. intros i Hi. apply H. apply in_seq in Hi. lia.
Qed.

Lemma big_sum_le (f g : nat -> Z) (n : nat) :
  (forall i, (i < n)%nat -> f i <= g i) -> big_sum f n <= big_sum g n.
Proof.
  intros H. unfold big_sum.
  assert (G : forall l, (forall i, In i l -> f i <= g i) ->
                        fold_right Z.add 0 (map f l)
                        <= fold_right Z.add 0 (map g l)).
  { induction l as [|i t IH]; intros Hl; simpl; [lia|].
    specialize (Hl i (or_introl eq_refl)) as Hi.
    specialize (IH (fun j Hj => Hl j (or_intror Hj))). lia. }
  apply G. intros i Hi. apply H. apply in_seq in Hi. lia.
Qed.

Lemma big_sum_scale (k : Z) (f : nat -> Z) (n : nat) :
  big_sum (fun i => k * f i) n = k * big_sum f n.
Proof.
  unfold big_sum. induction (seq 0 n) as [|i t IH]; simpl; [lia|].
  rewrite IH. lia.
Qed.

Lemma nth_nonneg (h : list Z) (j : nat) :
  Forall (fun x => 0 <= x) h -> 0 <= nth j h 0.
Proof.
  intros H. destruct (Nat.lt_ge_cases j (length h)) as [Hj|Hj].
  - rewrite Forall_forall in H. apply H, nth_In, Hj.
  - rewrite nth_overflow by exact Hj. lia.
Qed.

Lemma channel_total_nonneg (h : list Z) (c : nat) :
  Forall (fun x => 0 <= x) h -> 0 <= channel_total h c.
Proof.
  intros H. apply big_sum_nonneg. intros i _. apply nth_nonneg, H.
Qed.

Lemma channel_weighted_bounds (h : list Z) (c : nat) :
  Forall (fun x => 0 <= x) h ->
  0 <= channel_weighted h c <= 255 * channel_total h c.
Proof.
  intros H. unfold channel_weighted, channel_total. split.
  - apply big_sum_nonneg. intros i _.
    pose proof (nth_nonneg h (256 * c + i) H). unfold bucket_count. nia.
  - rewrite <- big_sum_scale. apply big_sum_le. intros i Hi.
    pose proof (nth_nonneg h (256 * c + i) H). unfold bucket_count. nia.
Qed.

Lemma quotient_bounds (W T : Z) :
  0 < T -> 0 <= W <= 255 * T ->
  (0 <= Q2Qc (inject_Z W / inject_Z T))%Qc
  /\ (Q2Qc (inject_Z W / inject_Z T) <= Qc_of_nat 255)%Qc.
Proof.
  intros HT [H0 H255].
  assert (QT : (0 < inject_Z T)%Q).
  { change 0%Q with (inject_Z 0). rewrite <- Zlt_Qlt. exact HT. }
  unfold Qcle, Qc_of_nat, Q2Qc, this. rewrite !Qred_correct. split.
  - apply Qle_shift_div_l; [exact QT|].
    rewrite Qmult_0_l. change 0%Q with (inject_Z 0).
    rewrite <- Zle_Qle. exact H0.
  - apply Qle_shift_div_r; [exact QT|].
    rewrite <- inject_Z_mult, <- Zle_Qle. exact H255.
Qed.

Lemma truediv_ok_inv (a b : Z) (x : Qc) :
  truediv a b = Ok x -> b <> 0 /\ x = Q2Qc (inject_Z a / inject_Z b).
Proof.
  unfold truediv. destruct (Z.eqb_spec b 0) as [E|E]; [discriminate|].
  intros H. injection H as <-. split; [exact E|reflexivity].
Qed.

(** X1.  The components of a signature are weighted means of the bucket
    indices 0..255: when no bucket count is negative, each lies between 0
    and 255. *)
Theorem signature_within_0_255 (h : list Z) (q : list Qc) :
  Forall (fun x => 0 <= x) h ->
  average_color_from_histogram h = Ok q ->
  length q = 3%nat
  /\ Forall (fun x => (0 <= x)%Qc /\ (x <= Qc_of_nat 255)%Qc) q.
Proof.
  intros Hh Hq. rewrite channels_of_slices in Hq.
  destruct (truediv (channel_weighted h 0) (channel_total h 0))
    as [x0|] eqn:E0; [|discriminate].
  destruct (truediv (channel_weighted h 1) (channel_total h 1))
    as [x1|] eqn:E1; [|discriminate].
  destruct (truediv (channel_weighted h 2) (channel_total h 2))
    as [x2|] eqn:E2; [|discriminate].
  simpl in Hq. injection Hq as <-. split; [reflexivity|].
  apply truediv_ok_inv in E0, E1, E2.
  destruct E0 as [N0 ->], E1 as [N1 ->], E2 as [N2 ->].
  pose proof (channel_total_nonneg h 0 Hh).
  pose proof (channel_total_nonneg h 1 Hh).
  pose proof (channel_total_nonneg h 2 Hh).
  repeat constructor;
    apply quotient_bounds; try lia; apply channel_weighted_bounds, Hh.
Qed.

Lemma signature_within_0_255_witness :
  length query_signature = 3%nat
  /\ Forall (fun x => (0 <= x)%Qc /\ (x <= Qc_of_nat 255)%Qc) query_signature.
Proof.
  apply (signature_within_0_255 query_histogram query_signature).
  - unfold query_histogram, solid, spike.
    repeat (apply Forall_app; split);
      try (apply Forall_forall; intros x Hx; apply repeat_spec in Hx; lia);
      repeat constructor; lia.
  - vm_compute. reflexivity.
Defined.

Lemma nth_map_mul (k : Z) (l : list Z) (j : nat) :
  nth j (map (Z.mul k) l) 0 = k * nth j l 0.
Proof.
  revert j. induction l as [|x t IH]; intros [|j]; simpl; try lia. apply IH.
Qed.

Lemma channel_total_scale (k : Z) (h : list Z) (c : nat) :
  channel_total (map (Z.mul k) h) c = k * channel_total h c.
Proof.
  unfold channel_total. rewrite <- big_sum_scale. apply big_sum_ext.
  intros i. apply nth_map_mul.
Qed.

Lemma channel_weighted_scale (k : Z) (h : list Z) (c : nat) :
  channel_weighted (map (Z.mul k) h) c = k * channel_weighted h c.
Proof.
  unfold channel_weighted. rewrite <- big_sum_scale. apply big_sum_ext.
  intros i. unfold bucket_count. rewrite nth_map_mul. lia.
Qed.

Lemma inject_Z_nonzero (z : Z) : z <> 0 -> ~ (inject_Z z == 0)%Q.
Proof. intros H E. apply H. unfold Qeq in E. simpl in E. lia. Qed.

Lemma truediv_scale (k a b : Z) :
  k <> 0 -> truediv (k * a) (k * b) = truediv a b.
Proof.
  intros Hk. unfold truediv.
  destruct (Z.eqb_spec b 0) as [E|E].
  - subst b. rewrite Z.mul_0_r. reflexivity.
  - destruct (Z.eqb_spec (k * b) 0) as [E'|E']; [nia|].
    f_equal. apply Q2Qc_eq_iff. rewrite !inject_Z_mult.
    field. split; apply inject_Z_nonzero; assumption.
Qed.

(** X2.  The signature depends on the proportions of the bucket counts only:
    multiplying every count by the same non-zero number (the same picture
    with [k] times the pixels) changes neither the signature nor the
    failure. *)
Theorem signature_scale_invariant (k : Z) (h : list Z) :
  k <> 0 ->
  average_color_from_histogram (map (Z.mul k) h)
  = average_color_from_histogram h.
Proof.
  intros Hk. rewrite !channels_of_slices.
  rewrite !channel_total_scale, !channel_weighted_scale.
  rewrite !truediv_scale by exact Hk. reflexivity.
Qed.

Lemma signature_scale_invariant_witness :
  average_color_from_histogram (map (Z.mul 9) query_histogram)
  = average_color_from_histogram query_histogram.
Proof.
  apply (signature_scale_invariant 9 query_histogram). discriminate.
Defined.

Lemma truediv_cases (a b : Z) :
  (exists x, truediv a b = Ok x) \/ truediv a b = Raise ZeroDivisionError.
Proof. unfold truediv. destruct (b =? 0); eauto. Qed.

(** X4.  A histogram of 512 entries or fewer, as a single-band or a two-band
    image has, leaves the third slice empty: the signature raises
    [ZeroDivisionError]. *)
Theorem short_histogram_raises (h : list Z) :
  (length h <= 512)%nat ->
  average_color_from_histogram h = Raise ZeroDivisionError.
Proof.
  intros Hlen. unfold average_color_from_histogram.
  destruct (truediv_cases (weighted_sum (slice 0 256 h)) (sum (slice 0 256 h)))
    as [[x0 ->] | ->]; [|reflexivity].
  destruct (truediv_cases (weighted_sum (slice 256 (256 * 2) h))
              (sum (slice 256 (256 * 2) h))) as [[x1 ->] | ->]; [|reflexivity].
  unfold slice at 1 2. rewrite (skipn_all2 h) by exact Hlen.
  rewrite firstn_nil. reflexivity.
Qed.

Lemma short_histogram_raises_witness :
  average_color_from_histogram (histogram (grey_image 128))
  = Raise ZeroDivisionError.
Proof.
  apply (short_histogram_raises (histogram (grey_image 128))).
  apply Nat.leb_le. vm_compute. reflexivity.
Defined.

Lemma sum_app (l1 l2 : list Z) : sum (l1 ++ l2) = sum l1 + sum l2.
Proof.
  unfold sum. rewrite fold_left_app.
  rewrite (fold_left_add_acc l2 (fold_left Z.add l1 0)). reflexivity.
Qed.

Lemma sum_repeat_0 (m : nat) : sum (repeat 0 m) = 0.
Proof.
  induction m as [|m IH]; simpl; [reflexivity|]. rewrite sum_cons, IH.
  reflexivity.
Qed.

Lemma weighted_from_app (k : Z) (l1 l2 : list Z) :
  sum (map (fun iw => fst iw * snd iw) (enumerate_from k (l1 ++ l2)))
  = sum (map (fun iw => fst iw * snd iw) (enumerate_from k l1))
    + sum (map (fun iw => fst iw * snd iw)
             (enumerate_from (k + Z.of_nat (length l1)) l2)).
Proof.
  revert k. induction l1 as [|x t IH]; intros k.
  - simpl app. simpl length. simpl Z.of_nat. rewrite Z.add_0_r.
    simpl enumerate_from at 2. simpl map at 2. rewrite sum_nil. lia.
  - simpl. rewrite !sum_cons, IH. simpl fst. simpl snd.
    replace (k + 1 + Z.of_nat (length t))
      with (k + Z.pos (Pos.of_succ_nat (length t))) by lia.
    lia.
Qed.

Lemma weighted_from_repeat_0 (k : Z) (m : nat) :
  sum (map (fun iw => fst iw * snd iw) (enumerate_from k (repeat 0 m))) = 0.
Proof.
  revert k. induction m as [|m IH]; intros k; simpl; [reflexivity|].
  rewrite sum_cons, IH. simpl. lia.
Qed.

Lemma length_spike (i : nat) (n : Z) :
  (i < 256)%nat -> length (spike i n) = 256%nat.
Proof.
  intros Hi. unfold spike. rewrite !length_app, !repeat_length.
  simpl length. lia.
Qed.

Lemma sum_spike (i : nat) (n : Z) : sum (spike i n) = n.
Proof.
  unfold spike. rewrite !sum_app, !sum_repeat_0, sum_cons, sum_nil. lia.
Qed.

Lemma weighted_sum_spike (i : nat) (n : Z) :
  weighted_sum (spike i n) = Z.of_nat i * n.
Proof.
  unfold weighted_sum, enumerate, spike.
  rewrite !weighted_from_app, !weighted_from_repeat_0, repeat_length.
  simpl. rewrite sum_cons, sum_nil. lia.
Qed.

Lemma slice_app_exact {A} (lo hi : nat) (pre a rest : list A) :
  length pre = lo -> length a = (hi - lo)%nat ->
  slice lo hi (pre ++ a ++ rest) = a.
Proof.
  intros Hpre Ha. unfold slice.
  rewrite skipn_app, <- Hpre, skipn_all, Nat.sub_diag. simpl skipn.
  rewrite app_nil_l, Hpre, <- Ha.
  rewrite firstn_app, firstn_all, Nat.sub_diag. simpl firstn.
  apply app_nil_r.
Qed.

Lemma truediv_exact (i n : Z) :
  n <> 0 -> truediv (i * n) n = Ok (Q2Qc (inject_Z i)).
Proof.
  intros Hn. rewrite truediv_nonzero by exact Hn. f_equal.
  apply Q2Qc_eq_iff. rewrite inject_Z_mult. field.
  apply inject_Z_nonzero, Hn.
Qed.

(** X3.  A picture of one colour has that colour as its signature: for the
    histogram of [n] pixels of colour (r, g, b) the three components are
    r, g and b. *)
Theorem signature_of_solid_colour (r g b : nat) (n : Z) :
  (r < 256)%nat -> (g < 256)%nat -> (b < 256)%nat -> n <> 0 ->
  average_color_from_histogram (solid r g b n)
  = Ok [Qc_of_nat r; Qc_of_nat g; Qc_of_nat b].
Proof.
  intros Hr Hg Hb Hn. unfold average_color_from_histogram, solid.
  assert (S1 : slice 0 256 (spike r n ++ spike g n ++ spike b n)
               = spike r n).
  { exact (slice_app_exact 0 256 [] (spike r n) (spike g n ++ spike b n)
             eq_refl (length_spike r n Hr)). }
  rewrite S1.
  rewrite (slice_app_exact 256 (256 * 2) (spike r n) (spike g n) (spike b n)
             (length_spike r n Hr) (length_spike g n Hg)).
  assert (S3 : slice (256 * 2) (256 * 3)
                 (spike r n ++ spike g n ++ spike b n) = spike b n).
  { rewrite <- (app_nil_r (spike b n)) at 1. rewrite app_assoc.
    apply slice_app_exact.
    - rewrite length_app, !length_spike by assumption. reflexivity.
    - rewrite length_spike by assumption. reflexivity. }
  rewrite S3, !sum_spike, !weighted_sum_spike.
  rewrite !truediv_exact by exact Hn. reflexivity.
Qed.

Lemma signature_of_solid_colour_witness :
  average_color_from_histogram (solid 200 0 15 9)
  = Ok [Qc_of_nat 200; Qc_of_nat 0; Qc_of_nat 15].
Proof.
  apply (signature_of_solid_colour 200 0 15 9);
    try (apply Nat.ltb_lt; vm_compute; reflexivity).
  discriminate.
Defined.

End SignatureExtra.

(** ** More on the distance *)

Module DistanceExtra.
Import Numpy Scipy SortFacts DistanceSpec Examples MoreExamples.

Lemma insert_by_map {A B} (f : A -> B) (key : B -> Qc) (a : A) (l : list A) :
  map f (insert_by (fun x => key (f x)) a l) = insert_by key (f a) (map f l).
Proof.
  induction l as [|b t IH]; simpl; [reflexivity|].
  destruct (Qcleb (key (f a)) (key (f b))); simpl; [reflexivity|].
  rewrite IH. reflexivity.
Qed.

Lemma sort_by_map {A B} (f : A -> B) (key : B -> Qc) (l : list A) :
  map f (sort_by (fun x => key (f x)) l) = sort_by key (map f l).
Proof.
  induction l as [|a t IH]; simpl; [reflexivity|].
  rewrite insert_by_map, IH. reflexivity.
Qed.

Lemma map_snd_combine_seq {B} (u : list B) (a : nat) :
  map snd (combine (seq a (length u)) u) = u.
Proof.
  revert a. induction u as [|x t IH]; intros a; simpl; [reflexivity|].
  rewrite IH. reflexivity.
Qed.

(** Reading an array at the positions [argsort] gives is sorting it. *)
Lemma take_argsort (u : list Qc) : take u (argsort u) = sort u.
Proof.
  unfold take, argsort, sort. rewrite map_map.
  rewrite <- (map_snd_combine_seq u 0) at 3.
  rewrite <- (sort_by_map snd (fun x => x)).
  apply map_ext_in. intros [i x] Hp. simpl.
  eapply Permutation_in in Hp; [|apply sort_by_perm].
  apply RankingSpec.in_combine_seq in Hp. destruct Hp as [_ Hx].
  rewrite Nat.sub_0_r in Hx. apply nth_error_nth. exact Hx.
Qed.

Lemma sort_nonempty (x : Qc) (l : list Qc) : sort (x :: l) <> [].
Proof.
  intros E. apply (f_equal (@length Qc)) in E. unfold sort in E.
  rewrite sort_by_length in E. discriminate E.
Qed.

(** The distance of two samples that are not empty, read off the two
    sorted samples. *)
Lemma wasserstein_distance_sorted (u v : list Qc) :
  u <> [] -> v <> [] ->
  wasserstein_distance u v
  = Ok (fsum
          (abs_diff_times
             (map (fun i => (Qc_of_nat i / Qc_of_nat (length u))%Qc)
                (map (searchsorted_right (sort u))
                   (removelast (sort (u ++ v)))))
             (map (fun i => (Qc_of_nat i / Qc_of_nat (length v))%Qc)
                (map (searchsorted_right (sort v))
                   (removelast (sort (u ++ v)))))
             (diff (sort (u ++ v))))).
Proof.
  destruct u as [|u0 u], v as [|v0 v]; try congruence. intros _ _.
  unfold wasserstein_distance. cbv beta iota zeta.
  rewrite !take_argsort. reflexivity.
Qed.

Lemma wasserstein_distance_perm (a a' b b' : list Qc) :
  Permutation a a' -> Permutation b b' ->
  wasserstein_distance a b = wasserstein_distance a' b'
  /\ (a <> [] -> wasserstein_distance a a' = Ok 0%Qc).
Proof.
  intros Pa Pb.
  assert (G : forall u u' v v', Permutation u u' -> Permutation v v' ->
                wasserstein_distance u v = wasserstein_distance u' v').
  { intros u u' v v' Pu Pv.
    destruct u as [|u0 u].
    { apply Permutation_nil in Pu. subst u'. reflexivity. }
    destruct v as [|v0 v].
    { apply Permutation_nil in Pv. subst v'.
      destruct u'; reflexivity. }
    assert (Nu' : u' <> []).
    { intros ->. apply Permutation_sym, Permutation_nil in Pu.
      discriminate Pu. }
    assert (Nv' : v' <> []).
    { intros ->. apply Permutation_sym, Permutation_nil in Pv.
      discriminate Pv. }
    rewrite (wasserstein_distance_sorted (u0 :: u) (v0 :: v))
      by (intros E; discriminate E).
    rewrite (wasserstein_distance_sorted u' v' Nu' Nv').
    rewrite (sort_perm_eq _ _ Pu), (sort_perm_eq _ _ Pv).
    rewrite (sort_perm_eq _ _ (Permutation_app Pu Pv)).
    rewrite (Permutation_length Pu), (Permutation_length Pv).
    reflexivity. }
  split; [apply G; assumption|].
  intros Na. rewrite <- (G a a a a') by (reflexivity || assumption).
  apply wasserstein_distance_self, Na.
Qed.

Lemma Qc_nonneg_mult (a b : Qc) : (0 <= a)%Qc -> (0 <= b)%Qc -> (0 <= a * b)%Qc.
Proof.
  intros Ha Hb. pose proof (Qcmult_le_compat_r 0%Qc a b Ha Hb) as H.
  rewrite Qcmult_0_l in H. exact H.
Qed.

Lemma Qc_nonneg_plus (a b : Qc) : (0 <= a)%Qc -> (0 <= b)%Qc -> (0 <= a + b)%Qc.
Proof.
  intros Ha Hb. pose proof (Qcplus_le_compat 0%Qc a 0%Qc b Ha Hb) as H.
  rewrite Qcplus_0_l in H. exact H.
Qed.

Lemma diff_nonneg (l : list Qc) :
  StronglySorted Qcle l -> Forall (fun d => (0 <= d)%Qc) (diff l).
Proof.
  induction 1 as [|x l Hs IH Hx]; [constructor|].
  destruct l as [|y t]; [constructor|]. simpl. constructor; [|exact IH].
  inversion Hx as [|? ? Hxy _]; subst.
  unfold Qcminus. apply Qcle_minus_iff in Hxy. exact Hxy.
Qed.

Lemma abs_diff_times_nonneg (x y d : list Qc) :
  Forall (fun e => (0 <= e)%Qc) d ->
  Forall (fun e => (0 <= e)%Qc) (abs_diff_times x y d).
Proof.
  intros Hd. revert x y.
  induction Hd as [|e d He _ IH]; intros [|a x] [|b y]; simpl;
    try constructor.
  - apply Qc_nonneg_mult; [apply Qcabs_nonneg|exact He].
  - apply IH.
Qed.

Lemma fold_plus_nonneg (l : list Qc) (acc : Qc) :
  Forall (fun e => (0 <= e)%Qc) l -> (0 <= acc)%Qc ->
  (0 <= fold_left Qcplus l acc)%Qc.
Proof.
  intros Hl. revert acc. induction Hl as [|e l He _ IH]; intros acc Ha;
    simpl; [exact Ha|].
  apply IH, Qc_nonneg_plus; assumption.
Qed.

Lemma weighted_gaps_nonneg (x y l : list Qc) :
  StronglySorted Qcle l -> (0 <= fsum (abs_diff_times x y (diff l)))%Qc.
Proof.
  intros Hl. unfold fsum. apply fold_plus_nonneg; [|apply Qcle_refl].
  apply abs_diff_times_nonneg, diff_nonneg, Hl.
Qed.

Lemma wasserstein_distance_nonneg (u v : list Qc) (d : Qc) :
  wasserstein_distance u v = Ok d -> (0 <= d)%Qc.
Proof.
  destruct u as [|u0 u], v as [|v0 v]; try discriminate.
  intros H.
  rewrite wasserstein_distance_sorted in H by (intros E; discriminate E).
  injection H as <-.
  exact (weighted_gaps_nonneg _ _ _ (sort_sorted ((u0 :: u) ++ v0 :: v))).
Qed.

End DistanceExtra.

(** ** More on the ranking *)

Module RankingExtra.
Import Signature Numpy Scipy Pandas RecommendationSystem.
Import Examples MoreExamples.
Import EffFacts SortFacts SignatureSpec DistanceSpec RankingFacts DistanceExtra.

(** X5.  [get_rgb_distance] treats the three values of a signature as a sample
    and does not look at which channel a value belongs to: reordering the
    components of the row's signature or of the query's signature does not
    change the distance, and a row whose signature has the values of the
    query in another order is at distance 0. *)
Theorem rgb_distance_ignores_channel_order
  (self self' : System) (r r' : Row) (c c' q q' : list Qc) :
  average_color r = Some c -> average_color r' = Some c' ->
  current_rgb self = Some q -> current_rgb self' = Some q' ->
  Permutation c c' -> Permutation q q' ->
  get_rgb_distance self r = get_rgb_distance self' r'
  /\ (Permutation c q -> c <> [] -> get_rgb_distance self r = Ok 0%Qc).
Proof.
  intros Hc Hc' Hq Hq' Pc Pq.
  unfold get_rgb_distance. rewrite Hc, Hc', Hq, Hq'. split.
  - apply (wasserstein_distance_perm c c' q q' Pc Pq).
  - intros P N.
    apply (wasserstein_distance_perm c q q q P (Permutation_refl q)); exact N.
Qed.

Lemma rgb_distance_ignores_channel_order_witness :
  get_rgb_distance (querying dark) (row_of_colour "R" reddish)
  = get_rgb_distance (querying dark) (row_of_colour "S" shuffled)
  /\ get_rgb_distance (querying shuffled) (row_of_colour "R" reddish)
     = Ok 0%Qc.
Proof.
  assert (P : Permutation reddish shuffled).
  { unfold reddish, shuffled.
    eapply perm_trans; [apply perm_skip, perm_swap|].
    apply perm_swap. }
  split.
  - apply (rgb_distance_ignores_channel_order
             (querying dark) (querying dark)
             (row_of_colour "R" reddish) (row_of_colour "S" shuffled)
             reddish shuffled dark dark);
      (reflexivity || exact P).
  - apply (rgb_distance_ignores_channel_order
             (querying shuffled) (querying shuffled)
             (row_of_colour "R" reddish) (row_of_colour "R" reddish)
             reddish reddish shuffled shuffled); try reflexivity.
    + exact P.
    + discriminate.
Defined.

(** What a call returns, step by step. *)
Lemma get_recommendation_result (w : World) (path : string) (self : System) :
  fst (get_recommendation w path self)
  = (opened <- fst (Pil.open path w) ;;
     current_histogram <- Pil.histogram_of opened ;;
     q <- average_color_from_histogram current_histogram ;;
     ds <- row_distances q (clean_data self) ;;
     closest <- iloc (set_rgb_distance_column (clean_data self) ds)
                  (slice 1 6 (argsort ds)) ;;
     scores <- rgb_distance_column closest ;;
     Ok (map names closest, scores)).
Proof.
  unfold get_recommendation, bindE, reading, modify, lift, get, ret.
  destruct (Pil.open path w) as [[opened|e] w1]; simpl; [|reflexivity].
  destruct (Pil.histogram_of opened) as [h|e]; simpl; [|reflexivity].
  destruct (average_color_from_histogram h) as [q|e];
    simpl; [|reflexivity].
  change (assign_apply_pure (get_rgb_distance _) (clean_data self))
    with (row_distances q (clean_data self)).
  destruct (row_distances q (clean_data self)) as [ds|e] eqn:D; simpl;
    [|reflexivity].
  apply row_distances_ok in D. destruct D as [_ D].
  rewrite (rgb_distance_column_set _ ds) by (eapply mapM_length, D). simpl.
  destruct (iloc _ _) as [closest|e]; simpl; [|reflexivity].
  destruct (rgb_distance_column closest); reflexivity.
Qed.

Lemma in_slice {A} (lo hi : nat) (l : list A) (x : A) :
  In x (slice lo hi l) -> In x l.
Proof.
  unfold slice. intros H.
  rewrite <- (firstn_skipn lo l). apply in_or_app. right.
  rewrite <- (firstn_skipn (hi - lo) (skipn lo l)).
  apply in_or_app. left. exact H.
Qed.

Lemma length_slice {A} (lo hi : nat) (l : list A) :
  length (slice lo hi l) = Nat.min (hi - lo) (length l - lo).
Proof. unfold slice. rewrite length_firstn, length_skipn. reflexivity. Qed.

(** X6.  A call answers with as many entries as the catalog has beyond the one
    that is dropped, and with five at most: on a built catalog of n entries,
    n at least 1, a query that has a signature gets min(5, n - 1) names and
    as many scores.  On a catalog without rows the call raises
    [ValueError]: the column of the distances cannot be assigned. *)
Theorem recommendation_count
  (w : World) (path : string) (self : System) (img : Image) (q : list Qc) :
  catalog_ok self = true ->
  files w path = Some (ImageBlob img) ->
  average_color_from_histogram (histogram img) = Ok q ->
  (clean_data self <> [] ->
   exists out,
     fst (get_recommendation w path self) = Ok out
     /\ length (fst out) = Nat.min 5 (length (clean_data self) - 1)
     /\ length (snd out) = Nat.min 5 (length (clean_data self) - 1))
  /\ (clean_data self = [] ->
      fst (get_recommendation w path self) = Raise ValueError).
Proof.
  intros Hok F S. split.
  - intros Hne.
    destruct (RankingSpec.get_recommendation_ranked w path self img q
                Hok Hne F S) as [ds [D [Hlen G]]].
    rewrite G. clear G.
    destruct (clean_data self) as [|r0 t] eqn:Rows; [congruence|].
    rewrite <- Rows in *.
    unfold argsort. rewrite RankingSpec.slice_map.
    set (sp := sort_by snd (combine (seq 0 (length ds)) ds)).
    rewrite (RankingSpec.select_closest (clean_data self) ds r0
               (slice 1 6 sp) Hlen).
    + eexists. split; [reflexivity|]. simpl fst. simpl snd.
      rewrite !length_map, length_slice.
      unfold sp. rewrite RankingSpec.sorted_pairs_length, Hlen.
      split; reflexivity.
    + intros p Hp. apply in_slice in Hp.
      eapply Permutation_in; [apply sort_by_perm|exact Hp].
  - intros E. rewrite get_recommendation_result.
    unfold Pil.open. rewrite F. simpl. rewrite S, E. reflexivity.
Qed.

Lemma recommendation_count_witness :
  (exists out,
      fst (get_recommendation (after_build twins) query_path (built twins))
      = Ok out
      /\ length (fst out) = 2%nat /\ length (snd out) = 2%nat)
  /\ fst (get_recommendation (after_build twins) query_path empty_system)
     = Raise ValueError.
Proof.
  split.
  - apply (recommendation_count (after_build twins) query_path (built twins)
             query_image query_signature).
    + vm_compute. reflexivity.
    + vm_compute. reflexivity.
    + vm_compute. reflexivity.
    + intros E. vm_compute in E. discriminate E.
  - apply (recommendation_count (after_build twins) query_path empty_system
             query_image query_signature).
    + reflexivity.
    + vm_compute. reflexivity.
    + vm_compute. reflexivity.
    + reflexivity.
Defined.

Lemma set_rgb_distance_ext (a b : Row) (d : option Qc) :
  entry_fields a = entry_fields b ->
  set_rgb_distance a d = set_rgb_distance b d.
Proof.
  unfold entry_fields, set_rgb_distance. intros H.
  injection H as E1 E2 E3 E4 E5 E6.
  rewrite E1, E2, E3, E4, E5, E6. reflexivity.
Qed.

Lemma set_rgb_distance_column_ext (r1 r2 : list Row) (ds : list Qc) :
  map entry_fields r1 = map entry_fields r2 ->
  set_rgb_distance_column r1 ds = set_rgb_distance_column r2 ds.
Proof.
  unfold set_rgb_distance_column.
  revert r2 ds. induction r1 as [|a t IH]; intros [|b u] ds H;
    try discriminate; [reflexivity|].
  destruct ds as [|d ds]; [reflexivity|].
  assert (Hab : entry_fields a = entry_fields b)
    by exact (f_equal (hd (entry_fields a)) H).
  assert (Htu : map entry_fields t = map entry_fields u)
    by exact (f_equal (@tl _) H).
  simpl. rewrite (set_rgb_distance_ext a b _ Hab), (IH u ds Htu).
  reflexivity.
Qed.

Lemma distance_to_ext (q : list Qc) (r1 r2 : list Row) :
  map entry_fields r1 = map entry_fields r2 ->
  mapM (distance_to q) r1 = mapM (distance_to q) r2.
Proof.
  intros H.
  assert (G : forall rows,
             mapM (distance_to q) rows
             = mapM (fun e => match snd e with
                              | Some c => wasserstein_distance c q
                              | None => Raise KeyError
                              end) (map entry_fields rows)).
  { intros rows. rewrite mapM_map. reflexivity. }
  rewrite (G r1), (G r2), H. reflexivity.
Qed.

Lemma row_distances_ext (q : list Qc) (r1 r2 : list Row) :
  map entry_fields r1 = map entry_fields r2 ->
  row_distances q r1 = row_distances q r2.
Proof.
  intros H. pose proof (distance_to_ext q r1 r2 H) as E.
  destruct r1 as [|a t], r2 as [|b u]; try discriminate H;
    [reflexivity|exact E].
Qed.

Lemma get_recommendation_result_ext (w : World) (path : string)
  (s1 s2 : System) :
  map entry_fields (clean_data s1) = map entry_fields (clean_data s2) ->
  fst (get_recommendation w path s1) = fst (get_recommendation w path s2).
Proof.
  intros H. rewrite !get_recommendation_result.
  destruct (fst (Pil.open path w)) as [opened|e]; simpl; [|reflexivity].
  destruct (Pil.histogram_of opened) as [h|e]; simpl; [|reflexivity].
  destruct (average_color_from_histogram h) as [q|e];
    simpl; [|reflexivity].
  rewrite (row_distances_ext q _ _ H).
  destruct (row_distances q (clean_data s2)) as [ds|e]; simpl;
    [|reflexivity].
  rewrite (set_rgb_distance_column_ext _ _ ds H). reflexivity.
Qed.

Lemma get_recommendation_entry_fields (w : World) (path : string)
  (self : System) :
  map entry_fields (clean_data (snd (get_recommendation w path self)))
  = map entry_fields (clean_data self).
Proof.
  destruct (get_recommendation_steps w path self)
    as [[e [s' [G [[-> | ->] _]]]]
       |[img [_ [[e [_ G]]|[q [_ [[e [_ G]]|[ds [D G]]]]]]]]];
    rewrite G; simpl; try reflexivity.
  apply row_distances_ok in D. destruct D as [_ D].
  apply entry_fields_set_column. eapply mapM_length, D.
Qed.

Lemma set_rgb_distance_column_twice (rows : list Row) (ds : list Qc) :
  set_rgb_distance_column (set_rgb_distance_column rows ds) ds
  = set_rgb_distance_column rows ds.
Proof.
  unfold set_rgb_distance_column.
  revert ds. induction rows as [|r t IH]; intros [|d ds]; simpl;
    try reflexivity.
  rewrite IH. reflexivity.
Qed.

Lemma distance_to_set_column (q : list Qc) (rows : list Row) (ds : list Qc) :
  length ds = length rows ->
  row_distances q (set_rgb_distance_column rows ds)
  = row_distances q rows.
Proof.
  intros H. apply row_distances_ext, entry_fields_set_column, H.
Qed.

Lemma row_distances_length (q : list Qc) (rows : list Row) (ds : list Qc) :
  row_distances q rows = Ok ds -> length ds = length rows.
Proof.
  intros D. apply row_distances_ok in D. eapply mapM_length, D.
Qed.

(** X7.  Requests do not influence one another.  What a call returns does not
    depend on the calls made before it, whatever they were asked and
    whether they failed; and asking the same question again gives the same
    answer and leaves [self] as the first call left it. *)
Theorem recommendation_independent_of_history
  (w w0 : World) (path path0 : string) (self : System) :
  fst (get_recommendation w path (snd (get_recommendation w0 path0 self)))
  = fst (get_recommendation w path self)
  /\ get_recommendation w path (snd (get_recommendation w path self))
     = (fst (get_recommendation w path self),
        snd (get_recommendation w path self)).
Proof.
  split.
  { apply get_recommendation_result_ext, get_recommendation_entry_fields. }
  rewrite <- (get_recommendation_result_ext w path
                (snd (get_recommendation w path self)) self
                (get_recommendation_entry_fields w path self)).
  assert (E : snd (get_recommendation w path
                     (snd (get_recommendation w path self)))
              = snd (get_recommendation w path self));
    [|rewrite <- E at 3; apply surjective_pairing].
  destruct (get_recommendation_steps w path self)
    as [[e [s' [G [Hs Hno]]]]
       |[img [F [[e [S G]]|[q [S [[e [D G]]|[ds [D G]]]]]]]]].
  - rewrite G. simpl snd.
    destruct (get_recommendation_steps w path s')
      as [[e' [s'' [G' [Hs' _]]]]|[img' [F' _]]].
    + rewrite G'. simpl.
      destruct Hs' as [-> | ->]; [reflexivity|].
      destruct Hs as [-> | ->]; [|reflexivity].
      rewrite G in G'. injection G' as _ E'. symmetry. exact E'.
    + exfalso. eapply Hno, F'.
  - rewrite G. simpl snd.
    destruct (get_recommendation_steps w path
                (set_current_histogram
                   (set_current_image self (Some (Loaded img)))
                   (Some (histogram img))))
      as [[e' [s' [_ [_ Hno]]]]|[img' [F' [[e' [S' G']]|[q' [S' _]]]]]].
    + exfalso. eapply Hno, F.
    + rewrite F in F'. injection F' as <-. rewrite G'. reflexivity.
    + rewrite F in F'. injection F' as <-. congruence.
  - rewrite G. simpl snd.
    destruct (get_recommendation_steps w path (remember_query self img q))
      as [[e' [s' [_ [_ Hno]]]]
         |[img' [F' [[e' [S' _]]
                    |[q' [S' [[e' [D' G']]|[ds' [D' _]]]]]]]]].
    + exfalso. eapply Hno, F.
    + rewrite F in F'. injection F' as <-. congruence.
    + rewrite F in F'. injection F' as <-.
      rewrite S in S'. injection S' as <-. rewrite G'. reflexivity.
    + rewrite F in F'. injection F' as <-.
      rewrite S in S'. injection S' as <-.
      simpl clean_data in D'. congruence.
  - rewrite G. simpl snd.
    destruct (get_recommendation_steps w path
                (set_clean_data (remember_query self img q)
                   (set_rgb_distance_column (clean_data self) ds)))
      as [[e' [s' [_ [_ Hno]]]]
         |[img' [F' [[e' [S' _]]
                    |[q' [S' [[e' [D' _]]|[ds' [D' G']]]]]]]]].
    + exfalso. eapply Hno, F.
    + rewrite F in F'. injection F' as <-. congruence.
    + rewrite F in F'. injection F' as <-.
      rewrite S in S'. injection S' as <-.
      simpl clean_data in D'.
      rewrite distance_to_set_column in D'
        by (eapply row_distances_length, D).
      congruence.
    + rewrite F in F'. injection F' as <-.
      rewrite S in S'. injection S' as <-.
      simpl clean_data in D', G'.
      rewrite distance_to_set_column in D'
        by (eapply row_distances_length, D).
      rewrite D in D'. injection D' as <-.
      rewrite G'. simpl snd.
      rewrite set_rgb_distance_column_twice. reflexivity.
Qed.

Lemma in_set_column_distance (rows : list Row) (ds : list Qc) (r' : Row) :
  In r' (set_rgb_distance_column rows ds) ->
  exists d, In d ds /\ rgb_distance r' = Some d.
Proof.
  unfold set_rgb_distance_column. intros H.
  apply in_map_iff in H. destruct H as [[r d] [<- H]].
  exists d. split; [eapply in_combine_r, H|reflexivity].
Qed.

(** X8.  No score that a call returns is negative. *)
Theorem recommendation_scores_nonnegative
  (w : World) (path : string) (self self' : System)
  (out : list (string * string) * list Qc) :
  get_recommendation w path self = (Ok out, self') ->
  Forall (fun score => (0 <= score)%Qc) (snd out).
Proof.
  intros G.
  destruct (get_recommendation_steps w path self)
    as [[e [s' [G' _]]]
       |[img [_ [[e [_ G']]|[q [_ [[e [_ G']]|[ds [D G']]]]]]]]];
    rewrite G' in G; try discriminate.
  destruct (iloc _ _) as [closest|e] eqn:I; simpl in G; [|discriminate].
  destruct (rgb_distance_column closest) as [scores|e] eqn:C; simpl in G;
    [|discriminate].
  injection G as <- _. simpl snd.
  assert (Hds : Forall (fun d => (0 <= d)%Qc) ds).
  { apply row_distances_ok in D. destruct D as [_ D].
    apply mapM_Forall2 in D. clear - D.
    induction D as [|r d rows ds Hr _ IH]; constructor; [|exact IH].
    unfold distance_to in Hr. destruct (average_color r); [|discriminate].
    eapply wasserstein_distance_nonneg, Hr. }
  unfold rgb_distance_column in C. apply mapM_Forall2 in C.
  assert (Hcl : forall r', In r' closest ->
                exists d, In d ds /\ rgb_distance r' = Some d).
  { intros r' Hr'. eapply in_set_column_distance, BuildSpec.iloc_in; eauto. }
  clear I G'. revert Hcl.
  induction C as [|r' s closest scores Hrs _ IH]; intros Hcl; constructor.
  - destruct (Hcl r' (or_introl eq_refl)) as [d [Hd E]].
    rewrite E in Hrs. injection Hrs as <-.
    rewrite Forall_forall in Hds. apply Hds, Hd.
  - apply IH. intros x Hx. apply Hcl. right. exact Hx.
Qed.

Lemma recommendation_scores_nonnegative_witness :
  Forall (fun score => (0 <= score)%Qc)
    (snd (recommended (after_build market) query_path (built market))).
Proof.
  apply (recommendation_scores_nonnegative (after_build market) query_path
           (built market)
           (snd (get_recommendation (after_build market) query_path
                   (built market)))).
  vm_compute. reflexivity.
Defined.

End RankingExtra.

(** ** More on the logo cache and the build *)

Module BuildExtra.
Import Signature Pandas RecommendationSystem Examples MoreExamples.
Import EffFacts SignatureSpec BuildFacts.

Lemma extends_refl (w : World) : extends w w.
Proof. unfold extends. auto. Qed.

Lemma extends_trans (w1 w2 w3 : World) :
  extends w1 w2 -> extends w2 w3 -> extends w1 w3.
Proof.
  unfold extends. intros [C1 [N1 [W1 F1]]] [C2 [N2 [W2 F2]]].
  repeat split; try congruence. auto.
Qed.

Lemma extends_set_log (w : World) (l : list string) : extends w (set_log w l).
Proof. unfold extends, set_log. simpl. auto. Qed.

Lemma identify_loaded (b : Blob) (img : Image) :
  Pil.identify b = Some (Loaded img) -> b = ImageBlob img.
Proof. destruct b; simpl; congruence. Qed.

(** What one call of [download_logos] does to the machine. *)
Lemma download_logos_effect (row : Row) (w : World) :
  extends w (snd (download_logos row w))
  /\ (forall p b,
         files w p = None ->
         files (snd (download_logos row w)) p = Some b ->
         p = cache_location w row
         /\ exists img, b = ImageBlob img
                        /\ fst (download_logos row w) = Ok (Some (Loaded img)))
  /\ (forall picture,
         fst (download_logos row w) = Ok (Some picture) ->
         exists b,
           files (snd (download_logos row w)) (cache_location w row) = Some b
           /\ Pil.identify b = Some picture).
Proof.
  destruct (String.eqb_spec (logo_url row) "") as [E|U].
  { rewrite (download_logos_empty_url row w E). simpl.
    split; [apply extends_set_log|]. split; [congruence|discriminate]. }
  rewrite (download_logos_with_url row w U).
  destruct (files w (cache_location w row)) as [b0|] eqn:F; simpl.
  - destruct (Pil.identify b0) as [pic|] eqn:I; simpl.
    + split; [apply extends_refl|]. split; [congruence|].
      intros picture H. injection H as <-. eauto.
    + split; [apply extends_set_log|]. split; [congruence|discriminate].
  - destruct (web w (fetch_url row)) as [[i| |j|]|] eqn:N; simpl;
      try (split; [apply extends_set_log|]; split; [congruence|discriminate]).
    destruct (Pil.has_format (cache_location w row)
              && writable w (cache_location w row))%bool eqn:Wr; simpl;
      try (split; [apply extends_set_log|]; split; [congruence|discriminate]).
    split.
    { unfold extends. simpl. repeat split. intros p b Hp.
      destruct (String.eqb_spec p (cache_location w row)) as [->|_];
        [congruence|exact Hp]. }
    split.
    { intros p b Hp Hb.
      destruct (String.eqb_spec p (cache_location w row)) as [->|_];
        [|congruence].
      split; [reflexivity|]. injection Hb as <-. eauto. }
    intros picture Hi. injection Hi as <-.
    rewrite String.eqb_refl. eauto.
Qed.

Lemma cache_location_cwd (w1 w2 : World) (row : Row) :
  cwd w1 = cwd w2 -> cache_location w1 row = cache_location w2 row.
Proof.
  intros H. unfold cache_location, LOGO_CACHE. rewrite H. reflexivity.
Qed.

Lemma cache_location_symbol (w : World) (r1 r2 : Row) :
  symbol r1 = symbol r2 -> cache_location w r1 = cache_location w r2.
Proof. intros H. unfold cache_location. rewrite H. reflexivity. Qed.

Lemma download_logos_cached (row : Row) (w : World) (b : Blob) :
  logo_url row <> ""%string ->
  files w (cache_location w row) = Some b ->
  fst (download_logos row w) = Ok (Pil.identify b)
  /\ files (snd (download_logos row w)) = files w.
Proof.
  intros U F. rewrite (download_logos_with_url row w U), F.
  destruct (Pil.identify b); split; reflexivity.
Qed.

(** X9.  When the cache holds a file for the symbol, neither the network nor
    the url is used and no file is written.  The file is opened, not
    decoded: a file that is recognised as an image is the logo, also when
    its data are cut short, and a file that is not recognised as an image
    makes the row fail, without a new fetch.  Every row with that symbol
    and some url gets the same answer on every machine with these
    files. *)
Theorem cached_logo_is_never_refetched (row : Row) (w : World) (b : Blob) :
  logo_url row <> ""%string ->
  files w (cache_location w row) = Some b ->
  fst (download_logos row w)
  = Ok (match b with
        | ImageBlob img => Some (Loaded img)
        | TruncatedBlob => Some Unloadable
        | _ => None
        end)
  /\ files (snd (download_logos row w)) = files w
  /\ forall (row2 : Row) (w2 : World),
       symbol row2 = symbol row -> logo_url row2 <> ""%string ->
       cwd w2 = cwd w -> files w2 = files w ->
       fst (download_logos row2 w2) = fst (download_logos row w).
Proof.
  intros U F.
  destruct (download_logos_cached row w b U F) as [R Fs].
  split; [rewrite R; destruct b; reflexivity|].
  split; [exact Fs|].
  intros row2 w2 Hs Hu Hc Hf. rewrite R.
  apply (download_logos_cached row2 w2 b Hu).
  rewrite Hf, (cache_location_cwd w2 w row2 Hc),
    (cache_location_symbol w row2 row Hs).
  exact F.
Qed.

Lemma cached_logo_is_never_refetched_witness :
  fst (download_logos row_A_again (offline (after_build market)))
  = Ok (Some (Loaded (rgb_image 12 20 30)))
  /\ fst (download_logos row_B with_truncated_cache) = Ok (Some Unloadable)
  /\ files (snd (download_logos row_B with_truncated_cache))
     = files with_truncated_cache.
Proof.
  split.
  - destruct (cached_logo_is_never_refetched row_A_again
                (offline (after_build market))
                (ImageBlob (rgb_image 12 20 30))) as [R _].
    + discriminate.
    + vm_compute. reflexivity.
    + exact R.
  - destruct (cached_logo_is_never_refetched row_B with_truncated_cache
                TruncatedBlob) as [R [Fs _]].
    + discriminate.
    + vm_compute. reflexivity.
    + split; [exact R|exact Fs].
Defined.

(** X10.  A logo that [download_logos] returns is the content of the cache
    file of the symbol, and no other file has changed: a logo that was
    fetched has been written there.  From then on every row with that
    symbol, whatever its url and whatever the network does, gets this logo
    from the cache. *)
Theorem fetched_logo_is_cached
  (row : Row) (w w' : World) (picture : Picture) :
  download_logos row w = (Ok (Some picture), w') ->
  (exists b, files w' (cache_location w row) = Some b
             /\ Pil.identify b = Some picture)
  /\ (forall img, picture = Loaded img ->
                  files w' (cache_location w row) = Some (ImageBlob img))
  /\ (forall p, p <> cache_location w row -> files w' p = files w p)
  /\ (forall (row2 : Row) (w2 : World),
         symbol row2 = symbol row ->
         logo_url row2 <> ""%string ->
         cwd w2 = cwd w ->
         files w2 = files w' ->
         fst (download_logos row2 w2) = Ok (Some picture)
         /\ files (snd (download_logos row2 w2)) = files w2).
Proof.
  intros D.
  destruct (download_logos_effect row w) as [Ext [New Kept]].
  rewrite D in Ext, New, Kept. simpl in Ext, New, Kept.
  destruct (Kept picture eq_refl) as [b [Here Ib]].
  split; [eauto|]. split.
  { intros img ->. apply identify_loaded in Ib. congruence. }
  split.
  - intros p Hp. destruct (files w p) as [b0|] eqn:F.
    + apply Ext, F.
    + destruct (files w' p) as [b0|] eqn:F'; [|reflexivity].
      destruct (New p b0 F F') as [E _]. contradiction.
  - intros row2 w2 Hs Hu Hc Hf.
    assert (L : cache_location w2 row2 = cache_location w row).
    { rewrite (cache_location_cwd w2 w row2 Hc).
      apply cache_location_symbol, Hs. }
    rewrite <- Ib.
    apply (download_logos_cached row2 w2 b Hu).
    rewrite Hf, L. exact Here.
Qed.

Lemma fetched_logo_is_cached_witness :
  files (snd (download_logos row_A market)) (cache_location market row_A)
  = Some (ImageBlob (rgb_image 12 20 30))
  /\ fst (download_logos row_A_again
            (offline (snd (download_logos row_A market))))
     = Ok (Some (Loaded (rgb_image 12 20 30))).
Proof.
  destruct (fetched_logo_is_cached row_A market
              (snd (download_logos row_A market))
              (Loaded (rgb_image 12 20 30)))
    as [_ [Here [_ Again]]].
  { vm_compute. reflexivity. }
  split; [apply Here; reflexivity|].
  apply (Again row_A_again (offline (snd (download_logos row_A market))));
    try reflexivity.
  discriminate.
Defined.

(** The loop over the rows only adds to the machine. *)
Lemma mapE_download_logos_effect (rows : list Row) :
  forall (w w' : World) (r : result (list (option Picture))),
    mapE download_logos rows w = (r, w') ->
    extends w w'
    /\ (forall p b,
           files w p = None -> files w' p = Some b ->
           exists img row,
             b = ImageBlob img /\ In row rows /\ p = cache_location w row).
Proof.
  induction rows as [|row t IH]; intros w w' r H; simpl in H.
  - injection H as _ <-. split; [apply extends_refl|]. congruence.
  - unfold bindE in H.
    destruct (download_logos_effect row w) as [Ext [New _]].
    destruct (download_logos row w) as [[oi|e] w1] eqn:D; simpl in Ext, New.
    2:{ destruct (download_logos_total row w) as [x [y T]]. congruence. }
    destruct (mapE download_logos t w1) as [[ois|e] w2] eqn:M;
      injection H as _ <-;
      destruct (IH w1 w2 _ M) as [Ext2 New2];
      (split; [eapply extends_trans; eassumption|]);
      intros p b Hp Hb;
      (destruct (files w1 p) as [b1|] eqn:F1;
       [ pose proof (proj2 (proj2 (proj2 Ext2)) p b1 F1) as F2;
         rewrite F2 in Hb; injection Hb as <-;
         destruct (New p b1 Hp F1) as [-> [img [-> _]]];
         exists img, row; repeat split; left; reflexivity
       | destruct (New2 p b F1 Hb) as [img [row2 [-> [Hin ->]]]];
         exists img, row2; repeat split;
         [ right; exact Hin
         | apply cache_location_cwd, Ext ] ]).
Qed.

Lemma assign_apply_download_logos_effect (rows : list Row) :
  forall (w w' : World) (r : result (list (option Picture))),
    assign_apply download_logos rows w = (r, w') ->
    extends w w'
    /\ (forall p b,
           files w p = None -> files w' p = Some b ->
           exists img row,
             b = ImageBlob img /\ In row rows /\ p = cache_location w row).
Proof.
  destruct rows as [|row t]; intros w w' r H.
  - injection H as _ <-. split; [apply extends_refl|congruence].
  - apply (mapE_download_logos_effect (row :: t) w w' r H).
Qed.

Lemma load_clean_data_effect (w w' : World) (r : result (list Row)) :
  load_clean_data w = (r, w') ->
  extends w w'
  /\ (forall p b,
         files w p = None -> files w' p = Some b ->
         exists img feed row,
           b = ImageBlob img
           /\ files w (INPUT_DATA w) = Some (JsonBlob (Some feed))
           /\ In row (dropna_fields feed)
           /\ p = cache_location w row).
Proof.
  unfold load_clean_data, bindE, load_pandas_df_from_json, lift, ret.
  destruct (files w (INPUT_DATA w)) as [[i| |[feed|]|]|] eqn:F;
    try (intros H; injection H as _ <-;
         split; [apply extends_refl|congruence]).
  unfold select_useful_fields.
  destruct (has_column raw_symbol feed && has_column raw_shortName feed
            && has_column raw_logo_url feed)%bool;
    [|intros H; injection H as _ <-; split; [apply extends_refl|congruence]].
  destruct (assign_apply download_logos (dropna_fields feed) w)
    as [[images|e] w1] eqn:M; intros H; injection H as _ <-;
    destruct (assign_apply_download_logos_effect _ _ _ _ M) as [Ext New];
    (split; [exact Ext|]);
    intros p b Hp Hb; destruct (New p b Hp Hb) as [img [row [-> [Hin ->]]]];
    exists img, feed, row; auto.
Qed.

(** X11.  The build only adds logos to the cache.  Whether [__init__] succeeds
    or raises, every file that was there is still there with its content,
    and every file that is new is an image at the cache path of a record
    of the feed that has its three fields. *)
Theorem build_only_adds_logos_to_cache
  (w w' : World) (r : result System) :
  __init__ w = (r, w') ->
  extends w w'
  /\ (forall p b,
         files w p = None -> files w' p = Some b ->
         exists img feed row,
           b = ImageBlob img
           /\ files w (INPUT_DATA w) = Some (JsonBlob (Some feed))
           /\ In row (dropna_fields feed)
           /\ p = cache_location w row).
Proof.
  unfold __init__, bindE, lift, ret.
  destruct (load_clean_data w) as [[rows|e] w1] eqn:L.
  - destruct (assign_apply_pure average_image_color rows); intros H;
      injection H as _ <-; apply (load_clean_data_effect _ _ _ L).
  - intros H. injection H as _ <-. apply (load_clean_data_effect _ _ _ L).
Qed.

Lemma build_only_adds_logos_to_cache_witness :
  extends with_grey_logo (after_build with_grey_logo)
  /\ files (after_build with_grey_logo) (INPUT_DATA with_grey_logo)
     = files with_grey_logo (INPUT_DATA with_grey_logo).
Proof.
  destruct (build_only_adds_logos_to_cache with_grey_logo
              (after_build with_grey_logo) (fst (__init__ with_grey_logo)))
    as [Ext _].
  { unfold after_build. apply surjective_pairing. }
  split; [exact Ext|].
  destruct Ext as [_ [_ [_ Kept]]]. apply Kept. reflexivity.
Defined.

Lemma Subseq_refl {A} (l : list A) : Subseq l l.
Proof. induction l; constructor; assumption. Qed.

Lemma Subseq_trans {A} (l1 l2 l3 : list A) :
  Subseq l1 l2 -> Subseq l2 l3 -> Subseq l1 l3.
Proof.
  intros H12 H23. revert l1 H12.
  induction H23 as [|x l2 l3 _ IH|x l2 l3 _ IH]; intros l1 H12.
  - exact H12.
  - constructor. apply IH, H12.
  - inversion H12; subst; constructor; apply IH; assumption.
Qed.

Lemma dropna_fields_order (feed : list (string * RawRecord)) :
  Subseq (map index (dropna_fields feed)) (map fst feed).
Proof.
  unfold dropna_fields.
  induction feed as [|[k raw] t IH]; simpl; [constructor|].
  destruct (raw_symbol raw); try (constructor; exact IH).
  destruct (raw_shortName raw); try (constructor; exact IH).
  destruct (raw_logo_url raw); constructor; exact IH.
Qed.

Lemma Subseq_nil_l {A} (l : list A) : Subseq [] l.
Proof. induction l; constructor; assumption. Qed.

Lemma dropna_image_order (df : list Row) (col : list (option Picture)) :
  Subseq (map index (dropna_image (set_image_column df col))) (map index df).
Proof.
  rewrite dropna_image_kept.
  revert col. induction df as [|r t IH]; intros col.
  - apply Subseq_nil_l.
  - destruct col as [|[img|] col]; simpl.
    + apply Subseq_nil_l.
    + apply Subseq_keep, IH.
    + apply Subseq_skip, IH.
Qed.

Lemma set_average_color_column_index (rows : list Row)
  (colors : list (list Qc)) :
  length colors = length rows ->
  map index (set_average_color_column rows colors) = map index rows
  /\ map symbol (set_average_color_column rows colors) = map symbol rows
  /\ length (set_average_color_column rows colors) = length rows.
Proof.
  unfold set_average_color_column.
  revert colors. induction rows as [|r t IH]; intros [|c colors] H;
    simpl in *; try discriminate; [auto|].
  destruct (IH colors) as [I1 [I2 I3]]; [lia|].
  rewrite I1, I2, I3. auto.
Qed.

(** X12.  The catalog keeps the order of the feed: the keys of the catalog rows
    are the keys of the feed, in the same order, with the records that
    were dropped left out. *)
Theorem catalog_keeps_feed_order
  (w w' : World) (self : System) (feed : list (string * RawRecord)) :
  files w (INPUT_DATA w) = Some (JsonBlob (Some feed)) ->
  __init__ w = (Ok self, w') ->
  Subseq (map index (clean_data self)) (map fst feed).
Proof.
  intros F I.
  destruct (BuildSpec.init_inv _ _ _ I) as [rows [colors [L [M [C _]]]]].
  destruct (load_clean_data_inv _ _ _ L) as [feed' [images [F' [_ [_ R]]]]].
  rewrite F in F'. injection F' as <-.
  rewrite C.
  destruct (set_average_color_column_index rows colors
              (mapM_length _ _ _ M)) as [-> _].
  rewrite R.
  eapply Subseq_trans; [apply dropna_image_order|apply dropna_fields_order].
Qed.

Lemma catalog_keeps_feed_order_witness :
  map index (clean_data (built with_empty_fields)) = ["A"; "B"]%string
  /\ Subseq (map index (clean_data (built with_empty_fields)))
       (map fst empty_fields_feed).
Proof.
  split; [vm_compute; reflexivity|].
  apply (catalog_keeps_feed_order with_empty_fields
           (after_build with_empty_fields) (built with_empty_fields)
           empty_fields_feed).
  - reflexivity.
  - vm_compute. reflexivity.
Defined.

(** X13.  The symbol-to-position mapping of a built system has one entry for
    every row of the catalog, in row order: entry i pairs the symbol of
    row i with the position i, also when the symbol has occurred before. *)
Theorem indices_list_every_row (w w' : World) (self : System) :
  __init__ w = (Ok self, w') ->
  indices self
  = combine (map symbol (clean_data self)) (seq 0 (length (clean_data self))).
Proof.
  intros I.
  destruct (BuildSpec.init_inv _ _ _ I) as [rows [colors [_ [M [C X]]]]].
  rewrite X, C.
  destruct (set_average_color_column_index rows colors
              (mapM_length _ _ _ M)) as [_ [-> ->]].
  apply BuildSpec.drop_duplicates_seen_positions. intros v [].
Qed.

Lemma indices_list_every_row_witness :
  indices (built market)
  = combine (map symbol (clean_data (built market)))
      (seq 0 (length (clean_data (built market)))).
Proof.
  apply (indices_list_every_row market (after_build market) (built market)).
  vm_compute. reflexivity.
Defined.

(** The images of the rows, once the loop over the rows is through, are in
    the cache. *)
Lemma mapE_download_logos_cached (rows : list Row) :
  forall (w w' : World) (images : list (option Picture)),
    mapE download_logos rows w = (Ok images, w') ->
    Forall2 (fun row oi =>
               forall picture,
                 oi = Some picture ->
                 exists b, files w' (cache_location w row) = Some b
                           /\ Pil.identify b = Some picture)
      rows images.
Proof.
  induction rows as [|row t IH]; intros w w' images H; simpl in H.
  - injection H as <- _. constructor.
  - unfold bindE in H.
    destruct (download_logos_effect row w) as [Ext [_ Kept]].
    destruct (download_logos row w) as [[oi|e] w1] eqn:D; [|discriminate].
    destruct (mapE download_logos t w1) as [[ois|e] w2] eqn:M;
      [|discriminate].
    injection H as <- <-. simpl in Ext, Kept.
    destruct (mapE_download_logos_effect _ _ _ _ M) as [Ext2 _].
    constructor.
    + intros picture ->. destruct (Kept picture eq_refl) as [b [Hb Ib]].
      exists b. split; [apply Ext2, Hb|exact Ib].
    + specialize (IH w1 w2 ois M).
      eapply Forall2_impl; [|exact IH].
      intros r o Hr picture E.
      rewrite <- (cache_location_cwd w1 w r (proj1 Ext)). apply Hr, E.
Qed.

Lemma init_no_query (w w' : World) (self : System) :
  __init__ w = (Ok self, w') ->
  current_image self = None /\ current_histogram self = None
  /\ current_rgb self = None.
Proof.
  unfold __init__, bindE, lift, ret.
  destruct (load_clean_data w) as [[rows|e] w1]; [|discriminate].
  destruct (assign_apply_pure average_image_color rows) as [colors|e];
    [|discriminate].
  intros H. injection H as <- _. auto.
Qed.

(** X14.  What a successful build leaves behind.  No query is current.  Every
    row of the catalog has a decoded logo, which is the image in the cache
    file of its symbol, the signature of that logo, and no distance yet. *)
Theorem build_postcondition (w w' : World) (self : System) :
  __init__ w = (Ok self, w') ->
  current_image self = None
  /\ current_histogram self = None
  /\ current_rgb self = None
  /\ Forall (fun r =>
               exists img c,
                 image r = Some (Loaded img)
                 /\ files w' (cache_location w r) = Some (ImageBlob img)
                 /\ average_color_from_histogram (histogram img) = Ok c
                 /\ average_color r = Some c
                 /\ rgb_distance r = None)
       (clean_data self).
Proof.
  intros I.
  destruct (BuildSpec.init_inv _ _ _ I) as [rows [colors [L [M [C _]]]]].
  destruct (init_no_query _ _ _ I) as [C1 [C2 C3]].
  repeat (split; [assumption|]).
  destruct (load_clean_data_inv _ _ _ L) as [feed [images [_ [E [_ R]]]]].
  apply mapE_download_logos_cached in E.
  assert (Hrows : Forall (fun r =>
                            exists picture b,
                              image r = Some picture
                              /\ files w' (cache_location w r) = Some b
                              /\ Pil.identify b = Some picture
                              /\ rgb_distance r = None) rows).
  { rewrite R, dropna_image_kept. apply Forall_forall. intros r Hr.
    apply in_flat_map in Hr. destruct Hr as [[c [picture|]] [Hc Hr]];
      simpl in Hr; [|contradiction].
    destruct Hr as [<-|[]].
    destruct (BuildSpec.Forall2_in_combine _ _ _ _ _ E Hc picture eq_refl)
      as [b [Hb Ib]].
    exists picture, b.
    split; [reflexivity|]. split; [exact Hb|]. split; [exact Ib|].
    apply in_combine_l in Hc. unfold dropna_fields in Hc.
    apply in_flat_map in Hc. destruct Hc as [[k raw] [_ Hc]]. simpl in Hc.
    destruct (raw_symbol raw); try contradiction.
    destruct (raw_shortName raw); try contradiction.
    destruct (raw_logo_url raw); try contradiction.
    destruct Hc as [<-|[]]. reflexivity. }
  rewrite C. apply mapM_Forall2 in M. unfold set_average_color_column.
  clear - M Hrows. induction M as [|r c rows colors Hr _ IH]; [constructor|].
  inversion Hrows as [|? ? [picture [b [Hi [Hf [Ib Hd]]]]] Hrest]; subst.
  simpl. constructor; [|apply IH, Hrest].
  unfold average_image_color in Hr. rewrite Hi in Hr.
  destruct picture as [img|]; [|discriminate Hr].
  apply identify_loaded in Ib. subst b.
  exists img, c. simpl. auto.
Qed.

Lemma build_postcondition_witness :
  current_rgb (built market) = None
  /\ Forall (fun r =>
               exists img c,
                 image r = Some (Loaded img)
                 /\ files (after_build market) (cache_location market r)
                    = Some (ImageBlob img)
                 /\ average_color_from_histogram (histogram img) = Ok c
                 /\ average_color r = Some c
                 /\ rgb_distance r = None)
       (clean_data (built market)).
Proof.
  destruct (build_postcondition market (after_build market) (built market))
    as [_ [_ [C R]]].
  { vm_compute. reflexivity. }
  split; [exact C|exact R].
Defined.

Lemma has_column_absent (col : RawRecord -> Field)
  (feed : list (string * RawRecord)) :
  (forall k raw, In (k, raw) feed -> col raw = Absent) ->
  has_column col feed = false.
Proof.
  intros H. unfold has_column.
  induction feed as [|[k raw] t IH]; simpl; [reflexivity|].
  rewrite (H k raw) by (left; reflexivity). simpl.
  apply IH. intros k' raw' Hin. apply (H k'). right. exact Hin.
Qed.

(** X15.  Start-up fails before any logo is fetched, and leaves the machine as
    it was, when [spy_data.json] is not there ([FileNotFoundError]), when
    it has no ["stock_data"] ([AssertionError]), and when one of the three
    fields is in none of the records, as in an empty feed ([KeyError]). *)
Theorem startup_fails_before_any_fetch (w : World) :
  (files w (INPUT_DATA w) = None ->
   __init__ w = (Raise FileNotFoundError, w))
  /\ (files w (INPUT_DATA w) = Some (JsonBlob None) ->
      __init__ w = (Raise AssertionError, w))
  /\ (forall feed,
         files w (INPUT_DATA w) = Some (JsonBlob (Some feed)) ->
         (forall k raw, In (k, raw) feed -> raw_symbol raw = Absent)
         \/ (forall k raw, In (k, raw) feed -> raw_shortName raw = Absent)
         \/ (forall k raw, In (k, raw) feed -> raw_logo_url raw = Absent) ->
         __init__ w = (Raise KeyError, w)).
Proof.
  unfold __init__, load_clean_data, bindE, load_pandas_df_from_json, lift.
  split; [intros ->; reflexivity|]. split; [intros ->; reflexivity|].
  intros feed -> H. unfold select_useful_fields.
  destruct H as [H|[H|H]]; rewrite (has_column_absent _ feed H);
    rewrite ?andb_false_r; reflexivity.
Qed.

Lemma startup_fails_before_any_fetch_witness :
  __init__ no_feed = (Raise FileNotFoundError, no_feed)
  /\ __init__ no_stock_data = (Raise AssertionError, no_stock_data)
  /\ __init__ no_logo_column = (Raise KeyError, no_logo_column).
Proof.
  split; [apply (startup_fails_before_any_fetch no_feed); reflexivity|].
  split;
    [apply (startup_fails_before_any_fetch no_stock_data); reflexivity|].
  destruct (startup_fails_before_any_fetch no_logo_column) as [_ [_ K]].
  eapply K; [reflexivity|].
  right. right. intros k raw [E|[]]. injection E as _ <-. reflexivity.
Defined.

Lemma prefix_append (a b : string) : String.prefix a (String.append a b) = true.
Proof.
  induction a as [|c a IH]; simpl; [destruct b; reflexivity|].
  destruct (ascii_dec c c) as [_|N]; [exact IH|contradiction].
Qed.

Lemma replace_from_skip (old new x s : string) :
  replace_from old new (String.length x) (String.append x s)
  = replace_from old new 0 s.
Proof.
  induction x as [|c x IH]; simpl; [reflexivity|].
  destruct (String.append x s) eqn:E.
  - destruct x; simpl in *; [subst s; reflexivity|discriminate E].
  - exact IH.
Qed.

Lemma replace_at_occurrence (c : ascii) (old' new s : string) :
  replace (String c old') new (String.append (String c old') s)
  = String.append new (replace (String c old') new s).
Proof.
  unfold replace. simpl String.append.
  unfold replace_from at 1. fold replace_from.
  change (String c (String.append old' s))
    with (String.append (String c old') s) at 1.
  rewrite prefix_append.
  replace (String.length (String c old') - 1)%nat with (String.length old')
    by (simpl; lia).
  rewrite replace_from_skip. reflexivity.
Qed.

Lemma replace_without_occurrence (old new s : string) :
  occurs old s = false -> replace old new s = s.
Proof.
  unfold replace. induction s as [|c s IH]; intros H; [reflexivity|].
  cbn [occurs] in H. apply orb_false_iff in H. destruct H as [P O].
  cbn [replace_from]. rewrite P, (IH O). reflexivity.
Qed.

(** X16.  The address a logo is fetched from is the url of the record with every
    [https] turned into [http]: a url that starts with [https] is asked
    for over plain http, and a url without [https] is asked for as it is. *)
Theorem https_urls_are_fetched_over_http (row : Row) (rest : string) :
  (logo_url row = String.append "https" rest ->
   fetch_url row
   = String.append "http" (replace "https" "http" rest))
  /\ (occurs "https" (logo_url row) = false ->
      fetch_url row = logo_url row).
Proof.
  unfold fetch_url. split.
  - intros ->. apply replace_at_occurrence.
  - apply replace_without_occurrence.
Qed.

Lemma https_urls_are_fetched_over_http_witness :
  fetch_url row_A = "http://logos/a.png"%string
  /\ fetch_url row_plain_http = "http://logos/h.png"%string.
Proof.
  split.
  - destruct (https_urls_are_fetched_over_http row_A "://logos/a.png")
      as [H _].
    rewrite H; reflexivity.
  - destruct (https_urls_are_fetched_over_http row_plain_http "")
      as [_ H].
    rewrite H; reflexivity.
Defined.

End BuildExtra.

(** ** The web layer *)

Module WebAppSpec.
Import Signature Pandas RecommendationSystem WebApp Examples MoreExamples.
Import EffFacts BuildFacts BuildExtra.

Lemma rsplit_dot_no_dot (s : string) :
  contains_dot s = false -> rsplit_dot s = [s].
Proof.
  induction s as [|c t IH]; simpl; [reflexivity|].
  intros H. apply orb_false_iff in H. destruct H as [Hc Ht].
  rewrite (IH Ht), Hc. reflexivity.
Qed.

Lemma rsplit_dot_at_last_dot (stem ext : string) :
  contains_dot ext = false ->
  rsplit_dot (String.append stem (String "." ext)) = [stem; ext].
Proof.
  intros H. induction stem as [|c st IH]; simpl.
  - rewrite (rsplit_dot_no_dot ext H). reflexivity.
  - rewrite IH. reflexivity.
Qed.

Lemma contains_dot_append (stem ext : string) :
  contains_dot (String.append stem (String "." ext)) = true.
Proof.
  induction stem as [|c st IH]; simpl; [reflexivity|].
  rewrite IH. apply orb_true_r.
Qed.

Lemma contains_dot_split (s : string) :
  contains_dot s = true ->
  exists stem ext,
    s = String.append stem (String "." ext) /\ contains_dot ext = false.
Proof.
  induction s as [|c t IH]; simpl; [discriminate|].
  destruct (contains_dot t) eqn:Ht.
  - intros _. destruct (IH eq_refl) as [stem [ext [-> He]]].
    exists (String c stem), ext. split; [reflexivity|exact He].
  - rewrite orb_false_r. intros Hc. apply Ascii.eqb_eq in Hc. subst c.
    exists EmptyString, t. split; [reflexivity|exact Ht].
Qed.

Lemma in_allowed_extensions (e : string) :
  existsb (String.eqb e) ALLOWED_EXTENSIONS = true
  <-> In e ALLOWED_EXTENSIONS.
Proof.
  rewrite existsb_exists. split.
  - intros [x [Hx E]]. apply String.eqb_eq in E. subst x. exact Hx.
  - intros H. exists e. split; [exact H|apply String.eqb_refl].
Qed.

(** X17.  [allowed_file] never raises, and it accepts a name exactly when the
    text after the last dot of the name is png, jpg or jpeg once its
    letters are put in lower case.  A name without a dot is refused; a
    name ending in a dot is refused; what stands before the last dot
    plays no part. *)
Theorem allowed_file_reads_last_extension (name : string) :
  (exists b, allowed_file name = Ok b)
  /\ (allowed_file name = Ok true
      <-> exists stem ext,
            name = String.append stem (String "." ext)
            /\ contains_dot ext = false
            /\ In (lower ext) ALLOWED_EXTENSIONS).
Proof.
  unfold allowed_file. destruct (contains_dot name) eqn:D.
  - destruct (contains_dot_split name D) as [stem [ext [-> He]]].
    rewrite (rsplit_dot_at_last_dot stem ext He). simpl nth_error.
    split; [eauto|]. split.
    + intros H. injection H as H. apply in_allowed_extensions in H.
      exists stem, ext. auto.
    + intros [stem' [ext' [E [He' Hin]]]].
      assert (R : rsplit_dot (String.append stem (String "." ext))
                  = [stem'; ext']).
      { rewrite E. apply rsplit_dot_at_last_dot, He'. }
      rewrite (rsplit_dot_at_last_dot stem ext He) in R.
      injection R as _ ->.
      f_equal. apply in_allowed_extensions, Hin.
  - split; [eauto|]. split; [discriminate|].
    intros [stem [ext [E _]]]. rewrite E, contains_dot_append in D.
    discriminate D.
Qed.

Section Routes.
Variable secure_filename : string -> string.
Variable round2 : Qc -> Qc.

(** X18.  A request without an accepted file writes nothing and changes
    nothing.  A request that is not a POST gets no response at all from
    the view; a POST without the part [logo] and a POST whose file has no
    name get the page with an error message; a POST whose file name is
    refused by [allowed_file] is redirected to the index. *)
Theorem upload_without_accepted_file (request : Request) (app : App) :
  (method request <> POST ->
   upload secure_filename round2 request app = (Ok NoResponse, app))
  /\ (method request = POST -> logo request = None ->
      upload secure_filename round2 request app
      = (Ok (error_page "No file uploaded"), app))
  /\ (forall file,
         method request = POST -> logo request = Some file ->
         filename file = ""%string ->
         upload secure_filename round2 request app
         = (Ok (error_page "No file selected"), app))
  /\ (forall file,
         method request = POST -> logo request = Some file ->
         filename file <> ""%string ->
         allowed_file (filename file) = Ok false ->
         upload secure_filename round2 request app
         = (Ok (Redirect "index"), app)).
Proof.
  unfold upload. split; [|split; [|split]].
  - destruct (method request); try reflexivity. congruence.
  - intros -> ->. reflexivity.
  - intros file -> -> ->. reflexivity.
  - intros file -> -> N A.
    destruct (String.eqb_spec (filename file) "") as [E|_]; [contradiction|].
    unfold bindE, lift, nonempty.
    destruct (String.eqb_spec (filename file) "") as [E|_]; [contradiction|].
    simpl. rewrite A. reflexivity.
Qed.

Lemma upload_accepted (request : Request) (app : App) (file : FileStorage) :
  method request = POST -> logo request = Some file ->
  allowed_file (filename file) = Ok true ->
  writable (world app) (upload_path secure_filename app file) = true ->
  upload secure_filename round2 request app
  = (out <- fst (get_recommendation
                   (saved_at (world app)
                      (upload_path secure_filename app file) (stream file))
                   (upload_path secure_filename app file) (StockRec app)) ;;
     Ok (result_page (secure_filename (filename file))
           (with_scores round2 out)),
     {| world := saved_at (world app) (upload_path secure_filename app file)
                   (stream file);
        StockRec :=
          snd (get_recommendation
                 (saved_at (world app)
                    (upload_path secure_filename app file) (stream file))
                 (upload_path secure_filename app file) (StockRec app));
        flashes := flashes app ++ ["Logo uploaded:"%string] |}).
Proof.
  intros M L A Wr. unfold upload. rewrite M, L.
  destruct (String.eqb_spec (filename file) "") as [E|_].
  { rewrite E in A. discriminate A. }
  unfold bindE, lift, nonempty.
  destruct (String.eqb_spec (filename file) "") as [E|_].
  { rewrite E in A. discriminate A. }
  simpl negb. cbv iota. rewrite A. cbv iota beta.
  unfold in_world, save_upload, flash, in_system, ret, set_world,
    set_StockRec. cbn [world StockRec flashes].
  fold (upload_path secure_filename app file). rewrite Wr.
  fold (saved_at (world app) (upload_path secure_filename app file)
          (stream file)).
  destruct (get_recommendation _ _ _) as [[out|e] s']; reflexivity.
Qed.

(** X19.  An accepted upload is written into the folder of the logo cache, under
    the name [secure_filename] gives it, before it is decoded: the file is
    there afterwards, no other file is touched, and that holds as well
    when the request then fails.  The answer is the recommendation for the
    bytes just saved; bytes that are not recognised as an image make the
    request end with [UnidentifiedImageError], and an image file cut short
    makes it end with [OSError], when its histogram is asked for. *)
Theorem accepted_upload_is_saved_in_the_cache_folder
  (request : Request) (app : App) (file : FileStorage) :
  method request = POST -> logo request = Some file ->
  allowed_file (filename file) = Ok true ->
  writable (world app) (upload_path secure_filename app file) = true ->
  files (world (snd (upload secure_filename round2 request app)))
    (upload_path secure_filename app file) = Some (stream file)
  /\ (forall p,
         p <> upload_path secure_filename app file ->
         files (world (snd (upload secure_filename round2 request app))) p
         = files (world app) p)
  /\ fst (upload secure_filename round2 request app)
     = (out <- fst (get_recommendation
                      (world (snd (upload secure_filename round2 request app)))
                      (upload_path secure_filename app file) (StockRec app)) ;;
        Ok (result_page (secure_filename (filename file))
              (with_scores round2 out)))
  /\ (Pil.identify (stream file) = None ->
      fst (upload secure_filename round2 request app)
      = Raise UnidentifiedImageError)
  /\ (stream file = TruncatedBlob ->
      fst (upload secure_filename round2 request app) = Raise OSError).
Proof.
  intros M L A Wr. rewrite (upload_accepted request app file M L A Wr).
  cbn [fst snd world]. unfold saved_at at 1 2. cbn [files set_files].
  split; [rewrite String.eqb_refl; reflexivity|].
  split.
  { intros p Hp.
    destruct (String.eqb_spec p (upload_path secure_filename app file));
      [contradiction|reflexivity]. }
  split; [reflexivity|].
  split.
  - intros N. rewrite RankingExtra.get_recommendation_result.
    unfold Pil.open, saved_at. cbn [files set_files].
    rewrite String.eqb_refl, N. reflexivity.
  - intros T. rewrite RankingExtra.get_recommendation_result.
    unfold Pil.open, saved_at. cbn [files set_files].
    rewrite String.eqb_refl, T. reflexivity.
Qed.

(** X20.  An upload plants the logo of a symbol.  When the saved name is the
    cache file name of a symbol, every later look-up of that symbol's logo
    takes the uploaded file instead of the logo behind the url: the
    uploaded image when the file is recognised as an image, also when its
    data are cut short, and no logo at all, so that the record is dropped
    from the next build, when it is not. *)
Theorem upload_plants_the_logo_of_a_symbol
  (request : Request) (app : App) (file : FileStorage) (row : Row) :
  method request = POST -> logo request = Some file ->
  allowed_file (filename file) = Ok true ->
  writable (world app) (upload_path secure_filename app file) = true ->
  secure_filename (filename file) = String.append (symbol row) ".png" ->
  logo_url row <> ""%string ->
  fst (download_logos row
         (world (snd (upload secure_filename round2 request app))))
  = Ok (match stream file with
        | ImageBlob img => Some (Loaded img)
        | TruncatedBlob => Some Unloadable
        | _ => None
        end).
Proof.
  intros M L A Wr Name U.
  rewrite (upload_accepted request app file M L A Wr). cbn [snd world].
  replace (match stream file with
           | ImageBlob img => Some (Loaded img)
           | TruncatedBlob => Some Unloadable
           | _ => None
           end) with (Pil.identify (stream file))
    by (destruct (stream file); reflexivity).
  apply (download_logos_cached row _ (stream file) U).
  unfold cache_location, saved_at, LOGO_CACHE. cbn [cwd files set_files].
  unfold upload_path, UPLOAD_FOLDER, LOGO_CACHE. rewrite Name.
  rewrite String.eqb_refl. reflexivity.
Qed.

End Routes.

Lemma upload_without_accepted_file_witness :
  upload plain_name no_rounding plain_get running = (Ok NoResponse, running)
  /\ upload plain_name no_rounding post_without_part running
     = (Ok (error_page "No file uploaded"), running)
  /\ upload plain_name no_rounding post_without_name running
     = (Ok (error_page "No file selected"), running)
  /\ upload plain_name no_rounding post_of_a_script running
     = (Ok (Redirect "index"), running).
Proof.
  split.
  { apply (upload_without_accepted_file plain_name no_rounding plain_get
             running). discriminate. }
  split.
  { apply (upload_without_accepted_file plain_name no_rounding
             post_without_part running); reflexivity. }
  split.
  { destruct (upload_without_accepted_file plain_name no_rounding
                post_without_name running) as [_ [_ [H _]]].
    eapply H; reflexivity. }
  destruct (upload_without_accepted_file plain_name no_rounding
              post_of_a_script running) as [_ [_ [_ H]]].
  eapply H; try reflexivity. discriminate.
Defined.

Lemma accepted_upload_is_saved_in_the_cache_folder_witness :
  files (world (snd (upload plain_name no_rounding text_as_png running)))
    "/app/static/logo_cache/B.png"
  = Some OtherBlob
  /\ fst (upload plain_name no_rounding text_as_png running)
     = Raise UnidentifiedImageError
  /\ files (world (snd (upload plain_name no_rounding truncated_as_png
                          running)))
       "/app/static/logo_cache/B.png"
     = Some TruncatedBlob
  /\ fst (upload plain_name no_rounding truncated_as_png running)
     = Raise OSError.
Proof.
  destruct (accepted_upload_is_saved_in_the_cache_folder plain_name
              no_rounding text_as_png running
              {| filename := "B.png"; stream := OtherBlob |})
    as [Saved [_ [_ [Fails _]]]]; try reflexivity.
  destruct (accepted_upload_is_saved_in_the_cache_folder plain_name
              no_rounding truncated_as_png running
              {| filename := "B.png"; stream := TruncatedBlob |})
    as [Saved' [_ [_ [_ Fails']]]]; try reflexivity.
  split; [exact Saved|]. split; [apply Fails; reflexivity|].
  split; [exact Saved'|]. apply Fails'. reflexivity.
Defined.

Lemma upload_plants_the_logo_of_a_symbol_witness :
  fst (download_logos row_B (after_build market))
  = Ok (Some (Loaded (rgb_image 40 20 30)))
  /\ fst (download_logos row_B
            (world (snd (upload plain_name no_rounding text_as_png running))))
     = Ok None
  /\ fst (download_logos row_B
            (world (snd (upload plain_name no_rounding truncated_as_png
                           running))))
     = Ok (Some Unloadable).
Proof.
  split; [vm_compute; reflexivity|].
  split.
  - apply (upload_plants_the_logo_of_a_symbol plain_name no_rounding
             text_as_png running
             {| filename := "B.png"; stream := OtherBlob |} row_B);
      try reflexivity.
    discriminate.
  - apply (upload_plants_the_logo_of_a_symbol plain_name no_rounding
             truncated_as_png running
             {| filename := "B.png"; stream := TruncatedBlob |} row_B);
      try reflexivity.
    discriminate.
Defined.

End WebAppSpec.
